(** * pdf_service: per-page text extraction with OCR fallback

    A shallow embedding of [FASTAPI/python/pdf_service.py]: the [/extract]
    route ([extract_pdf]) and its two adapters ([convert_pdf_to_images],
    [ocr_image]).  Python strings are sequences of Unicode code points,
    lists updated by index raise [IndexError] out of range, the dictionary
    [page_to_image] is a finite map, and exceptions are an error monad.
    Everything outside the interpreter (the uploaded file, pypdf, pdftoppm,
    tesseract, the thread pool) is a [World] the functions are run against. *)

From Stdlib Require Import ZArith NArith String Ascii.
From stdpp Require Import base option list sorting gmap.

(** ** Python strings *)

(** A [str] is a sequence of code points; [len] is [length]. *)
Definition char := N.
Definition pystr := list char.

(** A literal of the source, written as a Rocq string of ASCII characters. *)
Definition py (s : string) : pystr := map N_of_ascii (list_ascii_of_string s).

(** The characters [str.strip()] removes: those for which the interpreter's
    [Py_UNICODE_ISSPACE] holds. *)
Definition is_space (c : char) : bool :=
  ((9 <=? c) && (c <=? 13) || (28 <=? c) && (c <=? 32)
   || (c =? 133) || (c =? 160) || (c =? 5760)
   || (8192 <=? c) && (c <=? 8202)
   || (c =? 8232) || (c =? 8233) || (c =? 8239) || (c =? 8287)
   || (c =? 12288))%N.

Fixpoint lstrip (s : pystr) : pystr :=
  match s with
  | c :: s' => if is_space c then lstrip s' else s
  | [] => []
  end.

Definition rstrip (s : pystr) : pystr := rev (lstrip (rev s)).

(** [s.strip()] *)
Definition strip (s : pystr) : pystr := rstrip (lstrip s).

(** Truth value of a string: non-empty. *)
Definition truthy (s : pystr) : bool :=
  match s with [] => false | _ => true end.

(** [s.endswith(suffix)] *)
Definition endswith (s suffix : pystr) : bool :=
  bool_decide (drop (length s - length suffix) s = suffix).

(** [s.startswith(prefix)] *)
Definition startswith (s prefix : pystr) : bool :=
  bool_decide (take (length prefix) s = prefix).

(** [s.lower()], one character at a time.  ASCII capitals map to their small
    letters.  Of the characters outside ASCII only two lower-case to a string
    that contains an ASCII character: KELVIN SIGN (to [k]) and LATIN CAPITAL
    LETTER I WITH DOT ABOVE (to [i] followed by COMBINING DOT ABOVE); every
    other one maps to characters outside ASCII and is kept as it is, which
    no comparison with an ASCII literal can tell apart. *)
Definition lower_char (c : char) : pystr :=
  if ((65 <=? c) && (c <=? 90))%N then [(c + 32)%N]
  else if (c =? 8490)%N then [107%N]
  else if (c =? 304)%N then [105%N; 775%N]
  else [c].

Definition lower (s : pystr) : pystr := concat (map lower_char s).

(** [sep.join(parts)] *)
Fixpoint str_join (sep : pystr) (parts : list pystr) : pystr :=
  match parts with
  | [] => []
  | [p] => p
  | p :: rest => p ++ sep ++ str_join sep rest
  end.

(** [s.split(sep)[-1]] for a one-character separator: what follows the last
    occurrence of [sep], the whole string when there is none. *)
Fixpoint last_field_rev (sep : char) (r : pystr) (acc : pystr) : pystr :=
  match r with
  | [] => acc
  | c :: r' => if (c =? sep)%N then acc else last_field_rev sep r' (c :: acc)
  end.

Definition last_field (sep : char) (s : pystr) : pystr :=
  last_field_rev sep (rev s) [].

(** ** [int(s)] on a string *)

Definition is_digit (c : char) : bool := ((48 <=? c) && (c <=? 57))%N.

(** Decimal digits, with single underscores allowed between two digits.
    [prev] tells whether the character before was a digit. *)
Fixpoint int_digits (acc : Z) (prev : bool) (s : pystr) : option Z :=
  match s with
  | [] => if prev then Some acc else None
  | c :: s' =>
      if is_digit c then int_digits (acc * 10 + (Z.of_N c - 48))%Z true s'
      else if (c =? 95)%N && prev then
        match s' with
        | d :: _ => if is_digit d then int_digits acc false s' else None
        | [] => None
        end
      else None
  end.

(** [int(s)] in base ten: surrounding whitespace is dropped, one sign is
    allowed, [None] stands for [ValueError].  Decimal digits outside ASCII
    and the interpreter's limit on the number of digits are not modelled. *)
Definition py_int (s : pystr) : option Z :=
  match strip s with
  | c :: ds =>
      if (c =? 43)%N then int_digits 0%Z false ds
      else if (c =? 45)%N then Z.opp <$> int_digits 0%Z false ds
      else int_digits 0%Z false (c :: ds)
  | [] => None
  end.

(** ** Paths *)

(** A file in a directory.  [convert_pdf_to_images] returns [str(p)] for the
    paths [p] that [glob] yields and [extract_pdf] parses each string back
    with [Path(img_path)]; the round trip gives the same directory and final
    component, so an image path is kept as this pair throughout. *)
Record path := Path { path_dir : pystr; path_name : pystr }.

(** [str(p)] *)
Definition path_str (p : path) : pystr := path_dir p ++ py "/" ++ path_name p.

Fixpoint find_index (c : char) (s : pystr) : option nat :=
  match s with
  | [] => None
  | d :: s' => if (d =? c)%N then Some 0%nat else S <$> find_index c s'
  end.

(** [s.rfind(c)], [None] for -1. *)
Definition rfind (c : char) (s : pystr) : option nat :=
  (λ j, length s - 1 - j)%nat <$> find_index c (rev s).

(** [PurePath.stem]: the final component without its last suffix; a dot in
    first or in last position starts no suffix. *)
Definition stem (name : pystr) : pystr :=
  match rfind 46%N name with
  | Some i =>
      if bool_decide (0 < i)%nat && bool_decide (i < length name - 1)%nat
      then take i name else name
  | None => name
  end.

(** Whether a file name matches the pattern [page-*.jpg]. *)
Definition glob_page_jpg (name : pystr) : bool :=
  startswith name (py "page-") && endswith name (py ".jpg")
  && bool_decide (9 <= length name)%nat.

(** ** Exceptions *)

Inductive exn : Type :=
  | TimeoutExpired                       (* subprocess.TimeoutExpired *)
  | CalledProcessError (returncode : Z)  (* subprocess.CalledProcessError *)
  | ValueError                           (* int() of a string that is no number *)
  | IndexError                           (* list assignment or index out of range *)
  | HTTPException (status_code : Z) (detail : pystr)
  | Error (cause : pystr).               (* any other exception e, with str(e) *)

(** [str(e)] where the program asks for it: of an exception raised by pypdf,
    by a subprocess call or by the pool.  The exceptions the interpreter
    raises itself here ([CalledProcessError] is only printed, [ValueError]
    and [HTTPException] are never handled, [TimeoutExpired] is handled
    before a message is asked for) never have their message put in a value,
    and it is left empty. *)
Definition exn_str (e : exn) : pystr :=
  match e with
  | Error cause => cause
  | IndexError => py "list assignment index out of range"
  | TimeoutExpired | CalledProcessError _ | ValueError | HTTPException _ _ => []
  end.

Inductive result (A : Type) : Type :=
  | Return (a : A)
  | Raise (e : exn).
Arguments Return {A} a.
Arguments Raise {A} e.

#[global] Instance result_ret : MRet result := λ A a, Return a.
#[global] Instance result_bind : MBind result := λ A B f m,
  match m with
  | Return a => f a
  | Raise e => Raise e
  end.

(** [try: body  except ...: handler] *)
Definition try_except {A} (body : result A) (handler : exn → result A) : result A :=
  match body with
  | Return a => Return a
  | Raise e => handler e
  end.

(** [l[i] = v]: in place when [i] is an index of [l], [IndexError] otherwise. *)
Definition list_assign {A} (l : list A) (i : nat) (v : A) : result (list A) :=
  if bool_decide (i < length l)%nat then Return (<[i:=v]> l) else Raise IndexError.

(** [l[i]] *)
Definition list_get {A} (l : list A) (i : nat) : result A :=
  match l !! i with
  | Some v => Return v
  | None => Raise IndexError
  end.

(** ** The calls the request makes, in the order it makes them *)

Inductive event : Type :=
  | EvSaveUpload                        (* tmp.write(await file.read()) *)
  | EvOpenPdf                           (* PdfReader(pdf_path) *)
  | EvExtractText (page_index : nat)    (* page.extract_text() *)
  | EvRasterize                         (* subprocess.run(["pdftoppm", ...]) *)
  | EvSubmitOcr (page_index : nat) (img : path).  (* ex.submit(ocr_image, img) *)

(** A computation that raises or returns, and extends the log of calls. *)
Definition M (A : Type) : Type := list event → result A * list event.

#[global] Instance M_ret : MRet M := λ A a log, (Return a, log).
#[global] Instance M_bind : MBind M := λ A B f m log,
  match m log with
  | (Return a, log') => f a log'
  | (Raise e, log') => (Raise e, log')
  end.

Definition call (ev : event) : M () := λ log, (Return (), log ++ [ev]).
Definition lift {A} (r : result A) : M A := λ log, (r, log).
Definition raise {A} (e : exn) : M A := lift (Raise e).

(** Run from an empty log. *)
Definition run {A} (m : M A) : result A * list event := m [].

(** ** The world outside the interpreter *)

(** What [page.extract_text()] does on one page. *)
Inductive extract_text_outcome : Type :=
  | ExtractRaises (cause : pystr)
  | ExtractReturns (text : option pystr).     (* a string, or None *)

(** What running an external command under a timeout does. *)
Inductive run_outcome : Type :=
  | RunTimeout                                (* the time budget ran out *)
  | RunFails (cause : pystr)                  (* the call raised another exception *)
  | RunExits (returncode : Z) (stdout : pystr).

Record CompletedProcess := { returncode : Z; stdout : pystr }.

(** A file pdftoppm wrote, by the decimal digits of its page number (at least
    one, possibly zero padded).  The tool names its files [page-1.jpg],
    [page-07.jpg], ... as the comment above the [glob] of the source says;
    the program still parses the names, and so does the model. *)
Definition page_file : Type := nat * list nat.

(** What pypdf does with the saved upload: [PdfReader(pdf_path)] raises; or
    it returns a reader whose [pages] cannot be listed ([len(reader.pages)]
    raises, as on a file encrypted with a password); or the pages are
    listed. *)
Inductive reader_outcome : Type :=
  | ReaderRaises (cause : pystr)
  | PagesRaise (cause : pystr)
  | ReaderPages (reader_pages : list extract_text_outcome).

Record World := {
  (** [file.filename] *)
  upload_filename : pystr;
  (** [PdfReader(pdf_path)] and [reader.pages] *)
  pdf_reader : reader_outcome;
  (** [tempfile.mkdtemp()] *)
  output_dir : pystr;
  (** the pdftoppm run, and the files in [output_dir] after it, in the order
      [glob] lists them *)
  pdftoppm : run_outcome;
  pdftoppm_files : list page_file;
  (** the tesseract run on an image under a timeout in seconds *)
  tesseract : path → Z → run_outcome;
  (** a failure of the pool to deliver the result of the task on an image *)
  pool_fault : path → option pystr;
}.

Definition digit_char (d : nat) : char := (48 + N.of_nat (d mod 10))%N.

Definition page_file_name (f : page_file) : pystr :=
  py "page-" ++ (digit_char <$> f.1 :: f.2) ++ py ".jpg".

(** [subprocess.run(..., timeout=..., check=check)] *)
Definition subprocess_run (check : bool) (o : run_outcome) : result CompletedProcess :=
  match o with
  | RunTimeout => Raise TimeoutExpired
  | RunFails cause => Raise (Error cause)
  | RunExits rc out =>
      if check && negb (rc =? 0)%Z then Raise (CalledProcessError rc)
      else Return {| returncode := rc; stdout := out |}
  end.

(** ** [convert_pdf_to_images] *)

(** The sort key [int(p.stem.split("-")[-1])]. *)
Definition page_key (name : pystr) : result Z :=
  match py_int (last_field 45%N (stem name)) with
  | Some n => Return n
  | None => Raise ValueError
  end.

(** [sorted] computes the key of every element first. *)
Fixpoint with_keys (names : list pystr) : result (list (Z * pystr)) :=
  match names with
  | [] => Return []
  | name :: rest =>
      k ← page_key name;
      keyed ← with_keys rest;
      Return ((k, name) :: keyed)
  end.

Fixpoint insert_by_key (x : Z * pystr) (l : list (Z * pystr)) : list (Z * pystr) :=
  match l with
  | [] => [x]
  | y :: l' => if (x.1 <=? y.1)%Z then x :: l else y :: insert_by_key x l'
  end.

(** [sorted(names, key=...)]: stable. *)
Definition sorted_by_key (names : list pystr) : result (list pystr) :=
  keyed ← with_keys names;
  Return ((foldr insert_by_key [] keyed).*2).

Definition convert_pdf_to_images (w : World) : M (list path) :=
  let output_dir := output_dir w in
  call EvRasterize;;
  match subprocess_run true (pdftoppm w) with
  | Raise e => mret []                  (* the message is printed *)
  | Return _ =>
      let matching := List.filter glob_page_jpg (page_file_name <$> pdftoppm_files w) in
      image_files ← lift (sorted_by_key matching);
      mret (Path output_dir <$> image_files)
  end.

(** ** [ocr_image] *)

Definition ocr_image (w : World) (image_path : path) (timeout_sec : Z) : result pystr :=
  try_except
    (result ← subprocess_run false (tesseract w image_path timeout_sec);
     let text := strip (stdout result) in
     Return (if truthy text then text else py "[OCR EMPTY]"))
    (λ e, match e with
          | TimeoutExpired => Return (py "[OCR TIMEOUT]")
          | e => Return (py "[OCR ERROR] " ++ exn_str e)
          end).

(** ** [extract_pdf] *)

Record page_entry := { page_number : nat; text : pystr }.

Record response := {
  status : pystr;
  page_count : nat;
  ocr_used : bool;
  pages : list page_entry;
  full_text : pystr;
}.

Definition page_extract_text (page : extract_text_outcome) : result (option pystr) :=
  match page with
  | ExtractRaises cause => Raise (Error cause)
  | ExtractReturns text => Return text
  end.

(** The loop of step 1, from page [i] on. *)
Fixpoint extract_texts (i : nat) (reader_pages : list extract_text_outcome)
    (extracted_texts : list pystr) : M (list pystr) :=
  match reader_pages with
  | [] => mret extracted_texts
  | page :: rest =>
      call (EvExtractText i);;
      extracted_texts ← lift (try_except
        (text ← page_extract_text page;
         let text := default [] text in
         list_assign extracted_texts i (strip text))
        (λ _, list_assign extracted_texts i []));
      extract_texts (S i) rest extracted_texts
  end.

(** The loop that fills [page_to_image]. *)
Fixpoint match_images (num_pages : nat) (image_paths : list path)
    (page_to_image : gmap Z path) : result (gmap Z path) :=
  match image_paths with
  | [] => Return page_to_image
  | img_path :: rest =>
      n ← page_key (path_name img_path);
      let page_num := (n - 1)%Z in
      match_images num_pages rest
        (if bool_decide (0 ≤ page_num < Z.of_nat num_pages)%Z
         then <[page_num := img_path]> page_to_image
         else page_to_image)
  end.

Fixpoint enumerate_from {A} (i : nat) (l : list A) : list (nat * A) :=
  match l with
  | [] => []
  | x :: l' => (i, x) :: enumerate_from (S i) l'
  end.

(** The test of line 146 on one text. *)
Definition needs_ocr (t : pystr) : bool := bool_decide (length (strip t) < 20).

Definition pages_needing_ocr (extracted_texts : list pystr) : list nat :=
  (List.filter (λ it, needs_ocr it.2) (enumerate_from 0 extracted_texts)).*1.

(** A future stands for the call [ocr_image(img)] it was submitted with; the
    dictionary [futures] is the list of its items in insertion order. *)
Abbreviation Future := path (only parsing).

Definition NO_IMAGE : pystr := py "[NO IMAGE AVAILABLE FOR OCR]".

(** The first loop of step 3. *)
Fixpoint submit_tasks (page_to_image : gmap Z path) (pages_needing_ocr : list nat)
    (futures : list (Future * nat)) (extracted_texts : list pystr)
    : M (list (Future * nat) * list pystr) :=
  match pages_needing_ocr with
  | [] => mret (futures, extracted_texts)
  | page_index :: rest =>
      let img := page_to_image !! Z.of_nat page_index in
      match img with
      | Some img_path =>
          if truthy (path_str img_path) then
            call (EvSubmitOcr page_index img_path);;
            submit_tasks page_to_image rest (futures ++ [(img_path, page_index)])
              extracted_texts
          else
            extracted_texts ← lift (list_assign extracted_texts page_index NO_IMAGE);
            submit_tasks page_to_image rest futures extracted_texts
      | None =>
          extracted_texts ← lift (list_assign extracted_texts page_index NO_IMAGE);
          submit_tasks page_to_image rest futures extracted_texts
      end
  end.

(** [fut.result()]: what the call returned, unless the pool failed. *)
Definition future_result (w : World) (fut : Future) : result pystr :=
  match pool_fault w fut with
  | Some cause => Raise (Error cause)
  | None => ocr_image w fut 8
  end.

(** The second loop of step 3, over the futures in the order they complete. *)
Fixpoint collect (w : World) (completed : list (Future * nat))
    (extracted_texts : list pystr) : result (list pystr) :=
  match completed with
  | [] => Return extracted_texts
  | (fut, idx) :: rest =>
      extracted_texts ← try_except
        (r ← future_result w fut;
         list_assign extracted_texts idx r)
        (λ e, list_assign extracted_texts idx (py "[OCR FAILED] " ++ exn_str e));
      collect w rest extracted_texts
  end.

Fixpoint build_pages (extracted_texts : list pystr) (indices : list nat)
    : result (list page_entry) :=
  match indices with
  | [] => Return []
  | i :: rest =>
      t ← list_get extracted_texts i;
      entries ← build_pages extracted_texts rest;
      Return ({| page_number := i + 1; text := t |} :: entries)
  end.

Definition NEWLINE : char := 10%N.

(** The route.  [as_completed] is the order in which the pool hands the
    futures back. *)
Definition extract_pdf (w : World)
    (as_completed : list (Future * nat) → list (Future * nat)) : M response :=
  if negb (endswith (lower (upload_filename w)) (py ".pdf")) then
    raise (HTTPException 400 (py "File must be a PDF"))
  else
    call EvSaveUpload;;
    call EvOpenPdf;;
    reader_pages ← match pdf_reader w with
                   | ReaderRaises cause =>
                       raise (HTTPException 500 (py "PDF read error: " ++ cause))
                   | PagesRaise cause => raise (Error cause)   (* line 120, in no try *)
                   | ReaderPages reader_pages => mret reader_pages
                   end;
    let num_pages := length reader_pages in
    let extracted_texts := replicate num_pages [] in
    extracted_texts ← extract_texts 0 reader_pages extracted_texts;
    image_paths ← convert_pdf_to_images w;
    page_to_image ← lift (match_images num_pages image_paths ∅);
    let pages_needing_ocr := pages_needing_ocr extracted_texts in
    let ocr_used := bool_decide (0 < length pages_needing_ocr) in
    extracted_texts ←
      (if ocr_used then
         '(futures, extracted_texts) ←
           submit_tasks page_to_image pages_needing_ocr [] extracted_texts;
         lift (collect w (as_completed futures) extracted_texts)
       else mret extracted_texts);
    pages ← lift (build_pages extracted_texts (seq 0 num_pages));
    let full_text := str_join [NEWLINE; NEWLINE] extracted_texts in
    mret {| status := py "success";
            page_count := num_pages;
            ocr_used := ocr_used;
            pages := pages;
            full_text := full_text |}.

(** ** The vocabulary of the statements *)

(** The two outcomes of the test of line 146. *)
Inductive classification : Type := Sufficient | NeedsOcr.

Definition classify (t : pystr) : classification :=
  if needs_ocr t then NeedsOcr else Sufficient.

(** What the loop of step 1 stores for a page. *)
Definition direct_text (page : extract_text_outcome) : pystr :=
  match page with
  | ExtractRaises _ => []
  | ExtractReturns text => strip (default [] text)
  end.

(** [as_completed] yields every future once, in some order. *)
Definition completion_order (as_completed : list (Future * nat) → list (Future * nat)) : Prop :=
  ∀ futures, as_completed futures ≡ₚ futures.

(** The request passes the two gates of the route: the file name ends in
    [.pdf] and pypdf opens the container and lists these pages. *)
Definition accepted (w : World) (reader_pages : list extract_text_outcome) : Prop :=
  endswith (lower (upload_filename w)) (py ".pdf") = true
  ∧ pdf_reader w = ReaderPages reader_pages.

(** The file name ends in [.pdf], whatever the case of the three letters. *)
Definition ends_in_pdf (name : pystr) : Prop :=
  ∃ base a b c,
    name = base ++ [46; a; b; c]%N
    ∧ (a = 112 ∨ a = 80)%N ∧ (b = 100 ∨ b = 68)%N ∧ (c = 102 ∨ c = 70)%N.

(** The OCR tasks among the calls of a log, in submission order. *)
Definition submitted (log : list event) : list (nat * path) :=
  omap (λ ev, match ev with EvSubmitOcr i img => Some (i, img) | _ => None end) log.

(** What the collecting loop writes in the slot of a page whose task ran on
    [img]: the result of the future, or the mark of its failure. *)
Definition task_text (w : World) (img : path) : pystr :=
  match future_result w img with
  | Return r => r
  | Raise e => py "[OCR FAILED] " ++ exn_str e
  end.

(** The marks the program writes in place of a text. *)
Definition is_sentinel (t : pystr) : Prop :=
  t = NO_IMAGE ∨ t = py "[OCR TIMEOUT]" ∨ t = py "[OCR EMPTY]"
  ∨ (∃ cause, t = py "[OCR ERROR] " ++ cause)
  ∨ (∃ cause, t = py "[OCR FAILED] " ++ cause).

(** What tesseract printed for an image, trimmed, when that is not empty. *)
Definition is_ocr_output (w : World) (t : pystr) : Prop :=
  ∃ img rc out, tesseract w img 8 = RunExits rc out ∧ t = strip out ∧ t ≠ [].

(** pdftoppm timed out, could not be run, exited with a status other than
    zero, or left no file behind. *)
Definition rasterization_failed (w : World) : Prop :=
  pdftoppm w = RunTimeout
  ∨ (∃ cause, pdftoppm w = RunFails cause)
  ∨ (∃ rc out, pdftoppm w = RunExits rc out ∧ rc ≠ 0%Z)
  ∨ pdftoppm_files w = [].

(** The page number a file name of pdftoppm carries. *)
Definition page_file_number (f : page_file) : Z :=
  foldl (λ acc d, acc * 10 + Z.of_nat (d mod 10))%Z 0%Z (f.1 :: f.2).

(** What [convert_pdf_to_images] returns in a world, and the dictionary the
    route builds from it for a document of [num_pages] pages. *)
Definition rasterized (w : World) : list path :=
  match (run (convert_pdf_to_images w)).1 with
  | Return image_paths => image_paths
  | Raise _ => []
  end.

Definition page_images (w : World) (num_pages : nat) : gmap Z path :=
  match match_images num_pages (rasterized w) ∅ with
  | Return page_to_image => page_to_image
  | Raise _ => ∅
  end.

(** The same world, with other pages in the document. *)
Definition with_pages (w : World) (reader_pages : list extract_text_outcome) : World :=
  {| upload_filename := upload_filename w;
     pdf_reader := ReaderPages reader_pages;
     output_dir := output_dir w;
     pdftoppm := pdftoppm w;
     pdftoppm_files := pdftoppm_files w;
     tesseract := tesseract w;
     pool_fault := pool_fault w |}.

(** ** The loops, read as functions *)

(** The proofs show that each loop of the route, which may raise in
    principle, computes one of the following total functions. *)

(** A file of pdftoppm with its sort key. *)
Definition keyed_file (f : page_file) : Z * pystr := (page_file_number f, page_file_name f).

(** One turn of the loop of [match_images] on the image of file [f]. *)
Definition place_image (num_pages : nat) (dir : pystr) (m : gmap Z path) (f : page_file)
    : gmap Z path :=
  if bool_decide (0 ≤ page_file_number f - 1 < Z.of_nat num_pages)%Z
  then <[(page_file_number f - 1)%Z := Path dir (page_file_name f)]> m
  else m.

(** The futures [submit_tasks] adds to the dictionary [futures]. *)
Definition new_futures (m : gmap Z path) (needing : list nat) : list (Future * nat) :=
  omap (λ i, (λ img, (img, i)) <$> m !! Z.of_nat i) needing.

(** The texts [submit_tasks] leaves: a mark on every page without an image. *)
Definition after_submit (m : gmap Z path) (needing : list nat) (texts : list pystr)
    : list pystr :=
  foldl (λ texts i, match m !! Z.of_nat i with
                    | Some _ => texts
                    | None => <[i := NO_IMAGE]> texts
                    end) texts needing.

(** The call [submit_tasks] logs for an item of [futures]. *)
Definition submit_event (item : Future * nat) : event := EvSubmitOcr item.2 item.1.

(** The texts [collect] leaves. *)
Definition write_results (w : World) (completed : list (Future * nat)) (texts : list pystr)
    : list pystr :=
  foldl (λ texts item, <[item.2 := task_text w item.1]> texts) texts completed.

(** The entry [build_pages] makes of a page index and its text. *)
Definition entry_of (it : nat * pystr) : page_entry :=
  {| page_number := it.1 + 1; text := it.2 |}.

(** The text a page ends with: its direct text when that is long enough,
    else the text of its OCR task, else the mark of a missing image. *)
Definition final_text (w : World) (m : gmap Z path) (i : nat) (t : pystr) : pystr :=
  if needs_ocr t then
    match m !! Z.of_nat i with
    | Some img => task_text w img
    | None => NO_IMAGE
    end
  else t.

Definition final_texts (w : World) (reader_pages : list extract_text_outcome) : list pystr :=
  (λ it, final_text w (page_images w (length reader_pages)) it.1 it.2)
    <$> enumerate_from 0 (direct_text <$> reader_pages).

(** The futures of a request, in submission order. *)
Definition scheduled (w : World) (reader_pages : list extract_text_outcome)
    : list (Future * nat) :=
  new_futures (page_images w (length reader_pages))
    (pages_needing_ocr (direct_text <$> reader_pages)).

(** The calls and the response of an accepted request. *)
Definition expected_log (w : World) (reader_pages : list extract_text_outcome) : list event :=
  [EvSaveUpload; EvOpenPdf]
  ++ (EvExtractText <$> seq 0 (length reader_pages))
  ++ [EvRasterize]
  ++ (submit_event <$> scheduled w reader_pages).

Definition expected_response (w : World) (reader_pages : list extract_text_outcome) : response :=
  {| status := py "success";
     page_count := length reader_pages;
     ocr_used := bool_decide (0 < length (pages_needing_ocr (direct_text <$> reader_pages)));
     pages := entry_of <$> enumerate_from 0 (final_texts w reader_pages);
     full_text := str_join [NEWLINE; NEWLINE] (final_texts w reader_pages) |}.

(** ** Example worlds *)

Definition LAB_TEXT : pystr := py "Serum creatinine 1.4 mg/dL, eGFR 52 mL/min".
Definition PLAN_TEXT : pystr := py "  Plan: repeat urine ACR in three months.  ".

(** Texts of 19 and of 20 characters between whitespace. *)
Definition STAGE_19 : pystr := py "  eGFR 52, stage G3a.  ".
Definition STAGE_20 : pystr := NEWLINE :: py " eGFR 52, stage G3aA1 ".

(** tesseract reads the image of page 2 and times out on any other. *)
Definition demo_tesseract (img : path) (timeout_sec : Z) : run_outcome :=
  if bool_decide (path_name img = py "page-2.jpg")
  then RunExits 0 (py " Scanned referral letter" ++ [NEWLINE])
  else RunTimeout.

(** A one-page document with a text layer; every tool works. *)
Definition text_only : World :=
  {| upload_filename := py "labs.pdf";
     pdf_reader := ReaderPages [ExtractReturns (Some LAB_TEXT)];
     output_dir := py "/tmp/tmpq7";
     pdftoppm := RunExits 0 [];
     pdftoppm_files := [(1, [])];
     tesseract := demo_tesseract;
     pool_fault := λ _, None |}.

(** Three pages, the second one scanned; pdftoppm writes an image per page. *)
Definition mixed_pages : list extract_text_outcome :=
  [ExtractReturns (Some LAB_TEXT); ExtractReturns None; ExtractReturns (Some PLAN_TEXT)].

Definition mixed : World :=
  {| upload_filename := py "Referral.PDF";
     pdf_reader := ReaderPages mixed_pages;
     output_dir := py "/tmp/tmpq7";
     pdftoppm := RunExits 0 [];
     pdftoppm_files := [(1, []); (2, []); (3, [])];
     tesseract := demo_tesseract;
     pool_fault := λ _, None |}.

(** The same document when pdftoppm runs out of time. *)
Definition mixed_no_images : World :=
  {| upload_filename := py "Referral.PDF";
     pdf_reader := ReaderPages mixed_pages;
     output_dir := py "/tmp/tmpq7";
     pdftoppm := RunTimeout;
     pdftoppm_files := [];
     tesseract := demo_tesseract;
     pool_fault := λ _, None |}.

(** An upload that is no PDF by its name. *)
Definition not_a_pdf : World :=
  {| upload_filename := py "labs.pdf.txt";
     pdf_reader := ReaderPages [ExtractReturns (Some LAB_TEXT)];
     output_dir := py "/tmp/tmpq7";
     pdftoppm := RunExits 0 [];
     pdftoppm_files := [(1, [])];
     tesseract := demo_tesseract;
     pool_fault := λ _, None |}.

(** A document whose second page makes pypdf raise. *)
Definition broken_pages : list extract_text_outcome :=
  [ExtractReturns (Some LAB_TEXT); ExtractRaises (py "unknown filter"); ExtractReturns None].

Definition broken_page : World := with_pages mixed broken_pages.

(** The document of [mixed] on a day when tesseract always times out and
    the pool loses the task of page 2. *)
Definition mixed_slow : World :=
  {| upload_filename := py "Referral.PDF";
     pdf_reader := ReaderPages mixed_pages;
     output_dir := py "/tmp/tmpq7";
     pdftoppm := RunExits 0 [];
     pdftoppm_files := [(1, []); (2, []); (3, [])];
     tesseract := λ _ _, RunTimeout;
     pool_fault := λ img, if bool_decide (path_name img = py "page-2.jpg")
                          then Some (py "cancelled") else None |}.

(** Both tools fail with exit status 1: pdftoppm after it wrote its files,
    tesseract without output, or on page 3 after it printed a part. *)
Definition failed_processes : World :=
  {| upload_filename := py "Referral.PDF";
     pdf_reader := ReaderPages mixed_pages;
     output_dir := py "/tmp/tmpq7";
     pdftoppm := RunExits 1 [];
     pdftoppm_files := [(1, []); (2, []); (3, [])];
     tesseract := λ img _, if bool_decide (path_name img = py "page-3.jpg")
                           then RunExits 1 (py " Plan: rep")
                           else RunExits 1 [];
     pool_fault := λ _, None |}.

(** An upload that pypdf opens but whose pages it cannot list. *)
Definition encrypted : World :=
  {| upload_filename := py "locked.pdf";
     pdf_reader := PagesRaise (py "File has not been decrypted");
     output_dir := py "/tmp/tmpq7";
     pdftoppm := RunExits 0 [];
     pdftoppm_files := [(1, [])];
     tesseract := demo_tesseract;
     pool_fault := λ _, None |}.

(** A one-page scan for which pdftoppm leaves three images. *)
Definition extra_images : World :=
  {| upload_filename := py "scan.pdf";
     pdf_reader := ReaderPages [ExtractReturns (Some [])];
     output_dir := py "/tmp/tmpq7";
     pdftoppm := RunExits 0 [];
     pdftoppm_files := [(0, [1]); (0, [2]); (0, [3])];
     tesseract := demo_tesseract;
     pool_fault := λ _, None |}.

(** * Properties *)

(** ** Strings *)

Lemma lstrip_app_nonspace (s : pystr) (c : char) :
  is_space c = false → lstrip (s ++ [c]) = lstrip s ++ [c].
Proof.
  intros Hc. induction s as [|d s IH]; simpl.
  - by rewrite Hc.
  - destruct (is_space d); [exact IH | done].
Qed.

Lemma lstrip_lstrip (s : pystr) : lstrip (lstrip s) = lstrip s.
Proof.
  induction s as [|c s IH]; simpl; [done|].
  destruct (is_space c) eqn:Hc; [exact IH | simpl; by rewrite Hc].
Qed.

Lemma rstrip_cons_nonspace (c : char) (s : pystr) :
  is_space c = false → rstrip (c :: s) = c :: rstrip s.
Proof.
  intros Hc. unfold rstrip. simpl.
  rewrite lstrip_app_nonspace by done. by rewrite rev_app_distr.
Qed.

Lemma rstrip_rstrip (s : pystr) : rstrip (rstrip s) = rstrip s.
Proof. unfold rstrip. by rewrite rev_involutive, lstrip_lstrip. Qed.

(** A string that starts with no space keeps its start under [rstrip]. *)
Lemma lstrip_rstrip_lstrip (s : pystr) :
  lstrip (rstrip (lstrip s)) = rstrip (lstrip s).
Proof.
  induction s as [|c s IH]; simpl; [done|].
  destruct (is_space c) eqn:Hc; [exact IH|].
  rewrite rstrip_cons_nonspace by done. simpl. by rewrite Hc.
Qed.

Lemma strip_idemp (s : pystr) : strip (strip s) = strip s.
Proof. unfold strip. by rewrite lstrip_rstrip_lstrip, rstrip_rstrip. Qed.

Lemma strip_nil : strip [] = [].
Proof. reflexivity. Qed.

Lemma truthy_length (s : pystr) : truthy s = true ↔ (0 < length s)%nat.
Proof. destruct s; simpl; split; (done || lia). Qed.

Lemma strip_no_space (s : pystr) :
  Forall (λ c, is_space c = false) s → strip s = s.
Proof.
  intros Hs. unfold strip.
  assert (Hl : ∀ t, Forall (λ c, is_space c = false) t → lstrip t = t).
  { intros [|c t] Ht; [done|]. simpl. by rewrite (Forall_inv Ht). }
  rewrite (Hl s Hs). unfold rstrip.
  rewrite Hl by (by apply Forall_rev). apply rev_involutive.
Qed.

(** ** The file names of pdftoppm parse back to their page number *)

Lemma digit_char_is_digit (d : nat) : is_digit (digit_char d) = true.
Proof.
  unfold is_digit, digit_char.
  pose proof (Nat.mod_upper_bound d 10). apply andb_true_intro; split; apply N.leb_le; lia.
Qed.

Lemma digit_char_value (d : nat) : (Z.of_N (digit_char d) - 48 = Z.of_nat (d mod 10))%Z.
Proof. unfold digit_char. lia. Qed.

Lemma digit_not_space (c : char) : is_digit c = true → is_space c = false.
Proof.
  unfold is_digit, is_space. intros [H1 H2]%andb_prop.
  apply N.leb_le in H1, H2.
  repeat (apply orb_false_intro);
    try (apply andb_false_intro1, N.leb_gt; lia);
    try (apply andb_false_intro2, N.leb_gt; lia);
    apply N.eqb_neq; lia.
Qed.

Lemma int_digits_digit_chars (ds : list nat) (acc : Z) (prev : bool) :
  ds ≠ [] ∨ prev = true →
  int_digits acc prev (digit_char <$> ds)
  = Some (foldl (λ acc d, acc * 10 + Z.of_nat (d mod 10))%Z acc ds).
Proof.
  revert acc prev. induction ds as [|d ds IH]; intros acc prev Hne.
  - destruct Hne as [?| ->]; done.
  - cbn [fmap list_fmap int_digits foldl].
    rewrite digit_char_is_digit, digit_char_value. apply IH. by right.
Qed.

Lemma py_int_digit_chars (d : nat) (ds : list nat) :
  py_int (digit_char <$> d :: ds) = Some (page_file_number (d, ds)).
Proof.
  unfold py_int. rewrite strip_no_space.
  2:{ apply Forall_fmap, Forall_forall. intros x _. apply digit_not_space, digit_char_is_digit. }
  cbn [fmap list_fmap].
  pose proof (digit_char_is_digit d) as Hd. unfold is_digit in Hd.
  apply andb_prop in Hd as [H1%N.leb_le H2%N.leb_le].
  destruct (N.eqb_spec (digit_char d) 43); [lia|].
  destruct (N.eqb_spec (digit_char d) 45); [lia|].
  apply (int_digits_digit_chars (d :: ds) 0%Z false). by left.
Qed.

Lemma last_field_rev_sep (sep : char) (r r' acc : pystr) :
  Forall (λ c, c ≠ sep) r →
  last_field_rev sep (r ++ sep :: r') acc = rev r ++ acc.
Proof.
  revert acc. induction r as [|c r IH]; intros acc Hr; simpl.
  - by rewrite N.eqb_refl.
  - apply Forall_cons in Hr as [Hc Hr].
    destruct (N.eqb_spec c sep); [done|].
    rewrite IH by done. by rewrite <- app_assoc.
Qed.

Lemma digit_chars_no (sep : char) (ds : list nat) :
  is_digit sep = false → Forall (λ c, c ≠ sep) (digit_char <$> ds).
Proof.
  intros Hsep. apply Forall_fmap, Forall_forall. intros d _ Heq.
  unfold compose in Heq. by rewrite <- Heq, digit_char_is_digit in Hsep.
Qed.

Lemma stem_page_file_name (f : page_file) :
  stem (page_file_name f) = py "page-" ++ (digit_char <$> f.1 :: f.2).
Proof.
  destruct f as [d ds]. unfold page_file_name, stem, rfind. cbn [fst snd].
  set (D := digit_char <$> d :: ds).
  replace (rev (py "page-" ++ D ++ py ".jpg"))
    with ([103; 112; 106; 46]%N ++ rev D ++ rev (py "page-")).
  2:{ rewrite !rev_app_distr, <- app_assoc. reflexivity. }
  cbn [find_index app N.eqb Pos.eqb fmap option_fmap option_map].
  rewrite !length_app. change (length (py "page-")) with 5. change (length (py ".jpg")) with 4.
  fold D.
  rewrite bool_decide_eq_true_2; [|lia]. rewrite bool_decide_eq_true_2; [|lia]. cbn [andb].
  rewrite app_assoc. apply take_app_length'. rewrite length_app.
  change (length (py "page-")) with 5. unfold D. lia.
Qed.

Lemma page_key_page_file_name (f : page_file) :
  page_key (page_file_name f) = Return (page_file_number f).
Proof.
  unfold page_key. rewrite stem_page_file_name.
  destruct f as [d ds]. cbn [fst snd].
  unfold last_field. rewrite rev_app_distr.
  change (rev (py "page-")) with (45%N :: rev (py "page")).
  rewrite last_field_rev_sep.
  2:{ apply Forall_rev, digit_chars_no. reflexivity. }
  rewrite rev_involutive, app_nil_r, py_int_digit_chars. done.
Qed.

Lemma glob_page_file_name (f : page_file) : glob_page_jpg (page_file_name f) = true.
Proof.
  unfold glob_page_jpg, page_file_name, startswith, endswith.
  rewrite !andb_true_iff, !bool_decide_eq_true. split_and!.
  - reflexivity.
  - rewrite app_assoc, length_app, Nat.add_sub. apply drop_app_length.
  - rewrite !length_app, length_fmap. change (length (py "page-")) with 5.
    change (length (py ".jpg")) with 4. simpl. lia.
Qed.

(** ** [convert_pdf_to_images] *)

Lemma with_keys_page_files (fs : list page_file) :
  with_keys (page_file_name <$> fs) = Return (keyed_file <$> fs).
Proof.
  induction fs as [|f fs IH]; [done|].
  cbn [fmap list_fmap with_keys]. rewrite page_key_page_file_name.
  cbn [mbind result_bind]. fold (page_file_name <$> fs). rewrite IH. done.
Qed.

Lemma filter_glob_page_files (fs : list page_file) :
  List.filter glob_page_jpg (page_file_name <$> fs) = page_file_name <$> fs.
Proof.
  induction fs as [|f fs IH]; [done|].
  cbn [fmap list_fmap List.filter]. rewrite glob_page_file_name. f_equal. exact IH.
Qed.

Lemma insert_by_key_files (f : page_file) (fs : list page_file) :
  ∃ fs', fs' ≡ₚ f :: fs ∧ insert_by_key (keyed_file f) (keyed_file <$> fs) = keyed_file <$> fs'.
Proof.
  induction fs as [|g fs (fs' & Hp & Heq)].
  - by exists [f].
  - cbn [fmap list_fmap insert_by_key].
    destruct (_ <=? _)%Z.
    + by exists (f :: g :: fs).
    + exists (g :: fs'). split.
      * rewrite Hp. apply Permutation_swap.
      * cbn [fmap list_fmap]. f_equal. exact Heq.
Qed.

Lemma sort_files (fs : list page_file) :
  ∃ fs', fs' ≡ₚ fs ∧ foldr insert_by_key [] (keyed_file <$> fs) = keyed_file <$> fs'.
Proof.
  induction fs as [|f fs (fs' & Hp & Heq)].
  - by exists [].
  - cbn [fmap list_fmap foldr]. fold (keyed_file <$> fs). rewrite Heq.
    destruct (insert_by_key_files f fs') as (fs'' & Hp' & Heq').
    exists fs''. split; [|done]. by rewrite Hp', Hp.
Qed.

(** The adapter never raises, runs pdftoppm once, and returns [rasterized w]. *)
Lemma convert_pdf_to_images_run (w : World) (log : list event) :
  convert_pdf_to_images w log = (Return (rasterized w), log ++ [EvRasterize]).
Proof.
  unfold rasterized, run, convert_pdf_to_images.
  unfold mbind, M_bind, call, lift, mret, M_ret. cbn [app].
  destruct (subprocess_run true (pdftoppm w)) as [c|e]; [|done].
  rewrite filter_glob_page_files. unfold sorted_by_key.
  rewrite with_keys_page_files. done.
Qed.

Lemma rasterized_failed (w : World) (e : exn) :
  subprocess_run true (pdftoppm w) = Raise e → rasterized w = [].
Proof.
  intros He. unfold rasterized, run, convert_pdf_to_images.
  unfold mbind, M_bind, call, lift, mret, M_ret. cbn [app]. by rewrite He.
Qed.

(** The images are the files pdftoppm wrote, in some order. *)
Lemma rasterized_files (w : World) :
  ∃ fs, fs ⊆ pdftoppm_files w
        ∧ (is_Some (match subprocess_run true (pdftoppm w) with
                    | Return c => Some c | Raise _ => None end)
           → fs ≡ₚ pdftoppm_files w)
        ∧ rasterized w = (λ f, Path (output_dir w) (page_file_name f)) <$> fs.
Proof.
  unfold rasterized, run, convert_pdf_to_images.
  unfold mbind, M_bind, call, lift, mret, M_ret. cbn [app].
  destruct (subprocess_run true (pdftoppm w)) as [c|e].
  - rewrite filter_glob_page_files. unfold sorted_by_key.
    rewrite with_keys_page_files. cbn [mbind result_bind fst].
    destruct (sort_files (pdftoppm_files w)) as (fs & Hp & Heq).
    exists fs. split_and!.
    + intros f Hf. by rewrite <- Hp.
    + done.
    + rewrite Heq, <- !list_fmap_compose. done.
  - exists []. split_and!; [set_solver | by intros [? ?] | done].
Qed.

(** ** The dictionary [page_to_image] *)

Lemma match_images_files (n : nat) (dir : pystr) (fs : list page_file) (m : gmap Z path) :
  match_images n ((λ f, Path dir (page_file_name f)) <$> fs) m
  = Return (foldl (place_image n dir) m fs).
Proof.
  revert m. induction fs as [|f fs IH]; intros m; [done|].
  cbn [fmap list_fmap match_images path_name foldl].
  rewrite page_key_page_file_name. cbn [mbind result_bind]. apply IH.
Qed.

Lemma foldl_place_lookup (n : nat) (dir : pystr) (fs : list page_file) (m : gmap Z path)
    (k : Z) (img : path) :
  foldl (place_image n dir) m fs !! k = Some img →
  m !! k = Some img
  ∨ ((0 ≤ k < Z.of_nat n)%Z
     ∧ ∃ f, f ∈ fs ∧ page_file_number f = (k + 1)%Z ∧ img = Path dir (page_file_name f)).
Proof.
  revert m. induction fs as [|f fs IH]; intros m Hk; [by left|].
  cbn [foldl] in Hk. apply IH in Hk as [Hk|(Hr & g & Hg & Hnum & Himg)].
  - unfold place_image in Hk. case_bool_decide as Hin; [|by left].
    destruct (decide (page_file_number f - 1 = k)%Z) as [<-|Hne].
    + rewrite lookup_insert_eq in Hk. injection Hk as <-.
      right. split; [done|]. exists f. split_and!; [left | lia | done].
    + rewrite lookup_insert_ne in Hk by done. by left.
  - right. split; [done|]. exists g. split_and!; [by right | done | done].
Qed.

Lemma foldl_place_mono (n : nat) (dir : pystr) (fs : list page_file) (m : gmap Z path) (k : Z) :
  is_Some (m !! k) → is_Some (foldl (place_image n dir) m fs !! k).
Proof.
  revert m. induction fs as [|f fs IH]; intros m Hk; [done|].
  cbn [foldl]. apply IH. unfold place_image. case_bool_decide; [|done].
  rewrite lookup_insert. case_decide; [by eexists | done].
Qed.

Lemma foldl_place_has (n : nat) (dir : pystr) (fs : list page_file) (m : gmap Z path)
    (f : page_file) :
  f ∈ fs → (0 ≤ page_file_number f - 1 < Z.of_nat n)%Z →
  is_Some (foldl (place_image n dir) m fs !! (page_file_number f - 1)%Z).
Proof.
  revert m. induction fs as [|g fs IH]; intros m Hf Hin; [by apply elem_of_nil in Hf|].
  cbn [foldl]. apply elem_of_cons in Hf as [<-|Hf]; [|by apply IH].
  apply foldl_place_mono. unfold place_image.
  rewrite bool_decide_eq_true_2 by done. rewrite lookup_insert_eq. by eexists.
Qed.

(** The loop of [extract_pdf] never raises on what the adapter returned. *)
Lemma match_images_run (w : World) (n : nat) :
  match_images n (rasterized w) ∅ = Return (page_images w n).
Proof.
  unfold page_images. destruct (rasterized_files w) as (fs & _ & _ & ->).
  by rewrite match_images_files.
Qed.

(** Every key of the dictionary is a page index of the document, and its
    image is the file of pdftoppm with that page number. *)
Lemma page_images_lookup (w : World) (n : nat) (k : Z) (img : path) :
  page_images w n !! k = Some img →
  (0 ≤ k < Z.of_nat n)%Z
  ∧ ∃ f, f ∈ pdftoppm_files w ∧ page_file_number f = (k + 1)%Z
         ∧ img = Path (output_dir w) (page_file_name f).
Proof.
  unfold page_images. destruct (rasterized_files w) as (fs & Hsub & _ & ->).
  rewrite match_images_files. intros [Hk|(Hr & f & Hf & Hnum & Himg)]%foldl_place_lookup.
  - by rewrite lookup_empty in Hk.
  - split; [done|]. exists f. split_and!; [by apply Hsub | done | done].
Qed.

Lemma page_images_failed (w : World) (n : nat) :
  rasterized w = [] → page_images w n = ∅.
Proof. intros Hr. unfold page_images. by rewrite Hr. Qed.

(** After a successful run, a file whose number is a page of the document
    gives this page an image. *)
Lemma page_images_has (w : World) (n : nat) (c : CompletedProcess) (f : page_file) :
  subprocess_run true (pdftoppm w) = Return c →
  f ∈ pdftoppm_files w →
  (0 ≤ page_file_number f - 1 < Z.of_nat n)%Z →
  is_Some (page_images w n !! (page_file_number f - 1)%Z).
Proof.
  intros Hrun Hf Hin. unfold page_images.
  destruct (rasterized_files w) as (fs & _ & Hp & ->).
  rewrite match_images_files. apply foldl_place_has; [|done].
  rewrite Hp; [done|]. rewrite Hrun. by eexists.
Qed.

(** ** Step 1: direct extraction *)

Lemma extract_one_page (page : extract_text_outcome) (texts : list pystr) (i : nat) :
  try_except
    (text ← page_extract_text page;
     let text := default [] text in
     list_assign texts i (strip text))
    (λ _, list_assign texts i [])
  = list_assign texts i (direct_text page).
Proof.
  destruct page as [cause|text]; cbn; [done|].
  unfold list_assign. by case_bool_decide.
Qed.

Lemma extract_texts_run (reader_pages : list extract_text_outcome) (i : nat)
    (filled rest : list pystr) (log : list event) :
  length filled = i → length rest = length reader_pages →
  extract_texts i reader_pages (filled ++ rest) log
  = (Return (filled ++ (direct_text <$> reader_pages)),
     log ++ (EvExtractText <$> seq i (length reader_pages))).
Proof.
  revert i filled rest log.
  induction reader_pages as [|page pages IH]; intros i filled rest log Hi Hrest.
  - destruct rest; [|done]. cbn. by rewrite !app_nil_r.
  - destruct rest as [|r rest]; [done|].
    cbn [extract_texts]. rewrite extract_one_page.
    unfold mbind at 1 2, M_bind, call, lift, list_assign.
    rewrite bool_decide_eq_true_2 by (rewrite length_app; simpl; lia).
    rewrite insert_app_r_alt by lia. rewrite Hi, Nat.sub_diag. cbn [insert list_insert].
    rewrite (cons_middle _ filled rest), app_assoc.
    rewrite IH; [|rewrite length_app; simpl; lia|simpl in Hrest; lia].
    cbn [fmap list_fmap length seq]. by rewrite <- !app_assoc.
Qed.

(** ** The pages that need OCR *)

Lemma needing_from (k : nat) (texts : list pystr) :
  let r := (List.filter (λ it, needs_ocr it.2) (enumerate_from k texts)).*1 in
  NoDup r
  ∧ ∀ i, i ∈ r ↔ k ≤ i ∧ ∃ t, texts !! (i - k) = Some t ∧ needs_ocr t = true.
Proof.
  revert k. induction texts as [|t texts IH]; intros k; cbn zeta.
  - split; [constructor|]. intros i. cbn. split; [by intros ?%elem_of_nil|].
    by intros (_ & ? & ? & _).
  - destruct (IH (S k)) as [Hnd Hin]. cbn zeta in Hnd, Hin.
    assert (Hrest : ∀ i, (k ≤ i ∧ ∃ t', (t :: texts) !! (i - k) = Some t' ∧ needs_ocr t' = true)
                         ↔ (i = k ∧ needs_ocr t = true)
                           ∨ (S k ≤ i ∧ ∃ t', texts !! (i - S k) = Some t' ∧ needs_ocr t' = true)).
    { intros i. split.
      - intros (Hk & t' & Hl & Ht'). destruct (decide (i = k)) as [->|Hne].
        + rewrite Nat.sub_diag in Hl. injection Hl as <-. by left.
        + right. split; [lia|]. exists t'. split; [|done].
          replace (i - k) with (S (i - S k)) in Hl by lia. done.
      - intros [[-> Ht]|(Hk & t' & Hl & Ht')].
        + split; [lia|]. exists t. by rewrite Nat.sub_diag.
        + split; [lia|]. exists t'. split; [|done].
          replace (i - k) with (S (i - S k)) by lia. done. }
    cbn [enumerate_from List.filter snd]. destruct (needs_ocr t) eqn:Ht.
    + cbn [fmap list_fmap fst]. split.
      * constructor; [|done]. intros [Hle _]%Hin. lia.
      * intros i. rewrite Hrest, elem_of_cons, Hin. intuition.
    + split; [done|]. intros i. rewrite Hrest, Hin. intuition discriminate.
Qed.

Lemma pages_needing_ocr_NoDup (texts : list pystr) : NoDup (pages_needing_ocr texts).
Proof. apply (needing_from 0 texts). Qed.

Lemma elem_of_pages_needing_ocr (texts : list pystr) (i : nat) :
  i ∈ pages_needing_ocr texts ↔ ∃ t, texts !! i = Some t ∧ needs_ocr t = true.
Proof.
  unfold pages_needing_ocr. rewrite (proj2 (needing_from 0 texts) i), Nat.sub_0_r.
  split; [by intros [_ ?] | intros ?; split; [lia | done]].
Qed.

Lemma pages_needing_ocr_lt (texts : list pystr) (i : nat) :
  i ∈ pages_needing_ocr texts → i < length texts.
Proof. intros (t & Ht & _)%elem_of_pages_needing_ocr. by eapply lookup_lt_Some. Qed.

(** ** Step 3, first loop: scheduling *)

Lemma truthy_path_str (p : path) : truthy (path_str p) = true.
Proof. unfold path_str. by destruct (path_dir p). Qed.

Lemma after_submit_length (m : gmap Z path) (needing : list nat) (texts : list pystr) :
  length (after_submit m needing texts) = length texts.
Proof.
  unfold after_submit.
  revert texts. induction needing as [|i needing IH]; intros texts; [done|].
  cbn [foldl]. rewrite IH.
  destruct (m !! Z.of_nat i); [done | apply length_insert].
Qed.

Lemma after_submit_cons (m : gmap Z path) (i : nat) (needing : list nat) (texts : list pystr) :
  after_submit m (i :: needing) texts
  = after_submit m needing (match m !! Z.of_nat i with
                            | Some _ => texts
                            | None => <[i := NO_IMAGE]> texts
                            end).
Proof. done. Qed.

Lemma new_futures_cons (m : gmap Z path) (i : nat) (needing : list nat) :
  new_futures m (i :: needing)
  = match m !! Z.of_nat i with
    | Some img => (img, i) :: new_futures m needing
    | None => new_futures m needing
    end.
Proof. unfold new_futures. cbn [omap list_omap]. by destruct (m !! Z.of_nat i). Qed.

Lemma submit_tasks_run (m : gmap Z path) (needing : list nat)
    (futures : list (Future * nat)) (texts : list pystr) (log : list event) :
  (∀ i, i ∈ needing → i < length texts) →
  submit_tasks m needing futures texts log
  = (Return (futures ++ new_futures m needing, after_submit m needing texts),
     log ++ (submit_event <$> new_futures m needing)).
Proof.
  revert futures texts log.
  induction needing as [|i needing IH]; intros futures texts log Hlt.
  - cbn. by rewrite !app_nil_r.
  - assert (Hi : i < length texts) by (apply Hlt; left).
    cbn [submit_tasks]. rewrite new_futures_cons, after_submit_cons.
    destruct (m !! Z.of_nat i) as [img|] eqn:Hm.
    + rewrite truthy_path_str.
      unfold mbind at 1, M_bind, call.
      rewrite IH by (intros j Hj; apply Hlt; by right).
      cbn [fmap list_fmap submit_event fst snd]. by rewrite <- !app_assoc.
    + unfold mbind at 1, M_bind, lift, list_assign.
      rewrite bool_decide_eq_true_2 by done.
      rewrite IH; [done|].
      intros j Hj. rewrite length_insert. apply Hlt. by right.
Qed.

Lemma elem_of_new_futures (m : gmap Z path) (needing : list nat) (img : path) (i : nat) :
  (img, i) ∈ new_futures m needing ↔ i ∈ needing ∧ m !! Z.of_nat i = Some img.
Proof.
  unfold new_futures. rewrite list_elem_of_omap. split.
  - intros (j & Hj & Heq). destruct (m !! Z.of_nat j) eqn:Hm; [|done].
    cbn in Heq. by simplify_eq.
  - intros [Hi Hm]. exists i. split; [done|]. by rewrite Hm.
Qed.

Lemma new_futures_NoDup (m : gmap Z path) (needing : list nat) :
  NoDup needing → NoDup (new_futures m needing).*2.
Proof.
  induction 1 as [|i needing Hi Hnd IH]; [constructor|].
  rewrite new_futures_cons.
  destruct (m !! Z.of_nat i) as [img|]; [|done].
  cbn [fmap list_fmap snd]. constructor; [|done].
  intros [[img' j] [-> Hin]]%list_elem_of_fmap. cbn in Hin.
  by apply elem_of_new_futures in Hin as [? _].
Qed.

Lemma after_submit_lookup (m : gmap Z path) (needing : list nat) (texts : list pystr) (j : nat) :
  j < length texts →
  after_submit m needing texts !! j
  = if bool_decide (j ∈ needing ∧ m !! Z.of_nat j = None) then Some NO_IMAGE else texts !! j.
Proof.
  revert texts. induction needing as [|i needing IH]; intros texts Hj.
  - cbn. rewrite bool_decide_eq_false_2; [done|]. by intros [?%elem_of_nil _].
  - rewrite after_submit_cons.
    destruct (m !! Z.of_nat i) as [img|] eqn:Hm.
    + rewrite IH by done. apply (f_equal (λ b : bool, if b then _ else _)).
      apply bool_decide_ext. rewrite elem_of_cons. intuition congruence.
    + rewrite IH by (by rewrite length_insert).
      destruct (decide (j = i)) as [->|Hne].
      * rewrite list_lookup_insert_eq by done.
        rewrite (bool_decide_eq_true_2 (i ∈ i :: needing ∧ _)) by (split; [left | done]).
        by case_bool_decide.
      * rewrite list_lookup_insert_ne by done.
        apply (f_equal (λ b : bool, if b then _ else _)).
        apply bool_decide_ext. rewrite elem_of_cons. intuition congruence.
Qed.

(** ** Step 3, second loop: collecting *)

(** One turn of the loop writes the text of the task, whatever the future
    delivers. *)
Lemma collect_one (w : World) (fut : Future) (idx : nat) (texts : list pystr) :
  try_except
    (r ← future_result w fut;
     list_assign texts idx r)
    (λ e, list_assign texts idx (py "[OCR FAILED] " ++ exn_str e))
  = list_assign texts idx (task_text w fut).
Proof.
  unfold task_text. destruct (future_result w fut) as [r|e]; cbn; [|done].
  unfold list_assign. by case_bool_decide.
Qed.

Lemma write_results_length (w : World) (completed : list (Future * nat)) (texts : list pystr) :
  length (write_results w completed texts) = length texts.
Proof.
  unfold write_results. revert texts.
  induction completed as [|[fut idx] completed IH]; intros texts; [done|].
  cbn [foldl]. rewrite IH. apply length_insert.
Qed.

(** Every write of the loop is in range when every future carries a page
    index of the array, and the loop then is [write_results]. *)
Lemma collect_run (w : World) (completed : list (Future * nat)) (texts : list pystr) :
  Forall (λ item, item.2 < length texts) completed →
  collect w completed texts = Return (write_results w completed texts).
Proof.
  unfold write_results. revert texts.
  induction completed as [|[fut idx] completed IH]; intros texts Hlt; [done|].
  apply Forall_cons in Hlt as [Hidx Hlt]. cbn [snd] in Hidx.
  cbn [collect foldl fst snd]. rewrite collect_one. unfold list_assign.
  rewrite bool_decide_eq_true_2 by done. cbn [mbind result_bind].
  apply IH. eapply Forall_impl; [exact Hlt|]. intros item. by rewrite length_insert.
Qed.

Lemma write_results_lookup_ne (w : World) (completed : list (Future * nat))
    (texts : list pystr) (j : nat) :
  j ∉ completed.*2 → write_results w completed texts !! j = texts !! j.
Proof.
  unfold write_results. revert texts.
  induction completed as [|[fut idx] completed IH]; intros texts Hj; [done|].
  cbn [fmap list_fmap snd] in Hj. apply not_elem_of_cons in Hj as [Hne Hj].
  cbn [foldl fst snd]. rewrite IH by done. by apply list_lookup_insert_ne.
Qed.

Lemma write_results_lookup (w : World) (completed : list (Future * nat))
    (texts : list pystr) (fut : Future) (j : nat) :
  NoDup completed.*2 → (fut, j) ∈ completed → j < length texts →
  write_results w completed texts !! j = Some (task_text w fut).
Proof.
  revert texts.
  induction completed as [|[fut' idx] completed IH]; intros texts Hnd Hin Hj.
  - by apply elem_of_nil in Hin.
  - cbn [fmap list_fmap snd] in Hnd. apply NoDup_cons in Hnd as [Hidx Hnd].
    change (write_results w ((fut', idx) :: completed) texts)
      with (write_results w completed (<[idx := task_text w fut']> texts)).
    apply elem_of_cons in Hin as [Heq|Hin].
    + injection Heq as -> ->. rewrite write_results_lookup_ne by done.
      by apply list_lookup_insert_eq.
    + apply IH; [done | done | by rewrite length_insert].
Qed.

(** Index-addressed writes of distinct indices commute: the result does not
    depend on the order of the futures. *)
Lemma write_results_perm (w : World) (c1 c2 : list (Future * nat)) (texts : list pystr) :
  c1 ≡ₚ c2 → NoDup c1.*2 → write_results w c1 texts = write_results w c2 texts.
Proof.
  intros Hp Hnd.
  assert (Hnd2 : NoDup c2.*2) by (by rewrite <- Hp).
  apply list_eq. intros j.
  destruct (decide (j < length texts)) as [Hj|Hj].
  - destruct (decide (j ∈ c1.*2)) as [Hin|Hout].
    + apply list_elem_of_fmap in Hin as ([fut j'] & -> & Hin). cbn [snd] in *.
      rewrite (write_results_lookup w c1 texts fut j') by done.
      rewrite (write_results_lookup w c2 texts fut j'); [done | done | by rewrite <- Hp | done].
    + rewrite !write_results_lookup_ne; [done | by rewrite <- Hp | done].
  - rewrite !lookup_ge_None_2; [done | |]; rewrite write_results_length; lia.
Qed.

(** ** Step 4: the response *)

Lemma build_pages_run (filled texts : list pystr) :
  build_pages (filled ++ texts) (seq (length filled) (length texts))
  = Return (entry_of <$> enumerate_from (length filled) texts).
Proof.
  revert filled. induction texts as [|t texts IH]; intros filled; [done|].
  cbn [length seq build_pages enumerate_from fmap list_fmap].
  unfold list_get. rewrite list_lookup_middle by done. cbn [mbind result_bind].
  specialize (IH (filled ++ [t])). rewrite length_app, <- app_assoc in IH.
  cbn [length app] in IH. rewrite Nat.add_1_r in IH. rewrite IH. done.
Qed.

Lemma enumerate_from_lookup {A} (k : nat) (l : list A) (i : nat) :
  enumerate_from k l !! i = (λ x, (k + i, x)) <$> l !! i.
Proof.
  revert k i. induction l as [|x l IH]; intros k [|i]; cbn; [done..| |].
  - by rewrite Nat.add_0_r.
  - rewrite IH. destruct (l !! i); cbn; [|done]. do 2 f_equal. lia.
Qed.

Lemma enumerate_from_length {A} (k : nat) (l : list A) :
  length (enumerate_from k l) = length l.
Proof. revert k. induction l as [|x l IH]; intros k; cbn; [done | by rewrite IH]. Qed.

(** ** The whole route *)

Lemma ocr_phase_texts (w : World) (m : gmap Z path) (texts : list pystr)
    (completed : list (Future * nat)) :
  completed ≡ₚ new_futures m (pages_needing_ocr texts) →
  write_results w completed (after_submit m (pages_needing_ocr texts) texts)
  = (λ it, final_text w m it.1 it.2) <$> enumerate_from 0 texts.
Proof.
  intros Hp.
  pose proof (new_futures_NoDup m _ (pages_needing_ocr_NoDup texts)) as Hnd.
  rewrite (write_results_perm w _ _ _ Hp) by (by rewrite Hp).
  apply list_eq. intros j.
  rewrite list_lookup_fmap, enumerate_from_lookup. rewrite Nat.add_0_l.
  destruct (texts !! j) as [t|] eqn:Ht; cbn [fmap option_fmap option_map fst snd].
  2:{ apply lookup_ge_None_2. rewrite write_results_length, after_submit_length.
      by apply lookup_ge_None_1. }
  pose proof (lookup_lt_Some _ _ _ Ht) as Hj.
  unfold final_text. destruct (needs_ocr t) eqn:Hneeds.
  - assert (Hin : j ∈ pages_needing_ocr texts)
      by (apply elem_of_pages_needing_ocr; eauto).
    destruct (m !! Z.of_nat j) as [img|] eqn:Hm.
    + apply write_results_lookup; [done | | by rewrite after_submit_length].
      by apply elem_of_new_futures.
    + rewrite write_results_lookup_ne.
      * rewrite after_submit_lookup by done. by rewrite bool_decide_eq_true_2.
      * intros ([img j'] & -> & [_ Hm']%elem_of_new_futures)%list_elem_of_fmap.
        cbn in Hm. congruence.
  - assert (Hout : j ∉ pages_needing_ocr texts).
    { intros (t' & Ht' & Hn)%elem_of_pages_needing_ocr. congruence. }
    rewrite write_results_lookup_ne.
    + rewrite after_submit_lookup by done. rewrite bool_decide_eq_false_2; [done|].
      by intros [? _].
    + intros ([img j'] & -> & [Hin _]%elem_of_new_futures)%list_elem_of_fmap. done.
Qed.

(** Without a page that needs OCR the texts are the direct texts. *)
Lemma final_texts_no_ocr (w : World) (m : gmap Z path) (texts : list pystr) :
  pages_needing_ocr texts = [] →
  (λ it, final_text w m it.1 it.2) <$> enumerate_from 0 texts = texts.
Proof.
  intros Hnone. rewrite <- (ocr_phase_texts w m texts []) by (by rewrite Hnone).
  by rewrite Hnone.
Qed.

(** Step 3 as a whole: it never raises, logs one submission per future and
    leaves the final texts, in whatever order the futures complete. *)
Lemma ocr_phase_run (w : World) (m : gmap Z path) (texts : list pystr)
    (as_completed : list (Future * nat) → list (Future * nat)) (log : list event) :
  (pages_needing_ocr texts ≠ [] →
   as_completed (new_futures m (pages_needing_ocr texts))
   ≡ₚ new_futures m (pages_needing_ocr texts)) →
  (if bool_decide (0 < length (pages_needing_ocr texts)) then
     '(futures, extracted_texts) ←
       submit_tasks m (pages_needing_ocr texts) [] texts;
     lift (collect w (as_completed futures) extracted_texts)
   else mret texts) log
  = (Return ((λ it, final_text w m it.1 it.2) <$> enumerate_from 0 texts),
     log ++ (submit_event <$> new_futures m (pages_needing_ocr texts))).
Proof.
  intros Horder. case_bool_decide as Hused.
  - assert (Hp := Horder). specialize (Hp ltac:(intros Hnil; rewrite Hnil in Hused; cbn in Hused; lia)).
    unfold mbind, M_bind.
    rewrite submit_tasks_run by apply pages_needing_ocr_lt.
    cbn [app]. unfold lift. rewrite collect_run.
    + by rewrite ocr_phase_texts.
    + apply Forall_forall. intros [img i]. rewrite Hp.
      intros [Hin _]%elem_of_new_futures. cbn.
      rewrite after_submit_length. by apply pages_needing_ocr_lt.
  - assert (Hnone : pages_needing_ocr texts = []).
    { destruct (pages_needing_ocr texts); [done | cbn in Hused; lia]. }
    rewrite final_texts_no_ocr by done. rewrite Hnone. cbn. by rewrite app_nil_r.
Qed.

(** An accepted request returns [expected_response] after the calls of
    [expected_log], provided the pool hands back the futures it was given
    (it is asked to only when some page needs OCR). *)
Lemma extract_pdf_run_weak (w : World) (reader_pages : list extract_text_outcome)
    (as_completed : list (Future * nat) → list (Future * nat)) :
  accepted w reader_pages →
  (pages_needing_ocr (direct_text <$> reader_pages) ≠ [] →
   as_completed (scheduled w reader_pages) ≡ₚ scheduled w reader_pages) →
  run (extract_pdf w as_completed)
  = (Return (expected_response w reader_pages), expected_log w reader_pages).
Proof.
  intros [Hname Hreader] Horder. unfold run, extract_pdf.
  rewrite Hname, Hreader. cbn [negb].
  unfold mbind at 1 2 3 4, M_bind at 1 2 3 4, call at 1 2. cbn [app mret M_ret].
  pose proof (extract_texts_run reader_pages 0 [] (replicate (length reader_pages) [])
                [EvSaveUpload; EvOpenPdf] eq_refl (length_replicate _ _)) as Hstep1.
  cbn [app] in Hstep1. rewrite Hstep1. clear Hstep1.
  unfold mbind at 1, M_bind at 1. rewrite convert_pdf_to_images_run.
  unfold mbind at 1, M_bind at 1, lift at 1. rewrite match_images_run.
  unfold mbind at 1, M_bind at 1.
  rewrite (ocr_phase_run w _ _ as_completed _ Horder).
  unfold mbind at 1, M_bind at 1, lift at 1.
  pose proof (build_pages_run [] (final_texts w reader_pages)) as Hstep4.
  cbn [app length] in Hstep4.
  replace (length (final_texts w reader_pages)) with (length reader_pages) in Hstep4.
  2:{ unfold final_texts. by rewrite length_fmap, enumerate_from_length, length_fmap. }
  unfold final_texts in Hstep4 |- *. rewrite Hstep4.
  unfold expected_response, expected_log, scheduled, final_texts, mret, M_ret.
  by rewrite <- !app_assoc.
Qed.

Lemma extract_pdf_run (w : World) (reader_pages : list extract_text_outcome)
    (as_completed : list (Future * nat) → list (Future * nat)) :
  accepted w reader_pages → completion_order as_completed →
  run (extract_pdf w as_completed)
  = (Return (expected_response w reader_pages), expected_log w reader_pages).
Proof. intros Hacc Horder. apply extract_pdf_run_weak; [done|]. intros _. apply Horder. Qed.

Lemma final_texts_lookup (w : World) (reader_pages : list extract_text_outcome) (i : nat) :
  final_texts w reader_pages !! i
  = (λ p, final_text w (page_images w (length reader_pages)) i (direct_text p))
      <$> reader_pages !! i.
Proof.
  unfold final_texts. rewrite list_lookup_fmap, enumerate_from_lookup, list_lookup_fmap.
  by destruct (reader_pages !! i).
Qed.

Lemma final_texts_length (w : World) (reader_pages : list extract_text_outcome) :
  length (final_texts w reader_pages) = length reader_pages.
Proof. unfold final_texts. by rewrite length_fmap, enumerate_from_length, length_fmap. Qed.

(** The entry of page [i] in the response. *)
Lemma expected_pages_lookup (w : World) (reader_pages : list extract_text_outcome) (i : nat) :
  pages (expected_response w reader_pages) !! i
  = (λ p, {| page_number := i + 1;
             text := final_text w (page_images w (length reader_pages)) i (direct_text p) |})
      <$> reader_pages !! i.
Proof.
  cbn [pages expected_response].
  rewrite list_lookup_fmap, enumerate_from_lookup, final_texts_lookup.
  by destruct (reader_pages !! i).
Qed.

Lemma submitted_app (l1 l2 : list event) : submitted (l1 ++ l2) = submitted l1 ++ submitted l2.
Proof. apply omap_app. Qed.

Lemma submitted_extract_events (l : list nat) : submitted (EvExtractText <$> l) = [].
Proof. induction l; [done|]. cbn. exact IHl. Qed.

Lemma submitted_submit_events (futures : list (Future * nat)) :
  submitted (submit_event <$> futures) = (λ item, (item.2, item.1)) <$> futures.
Proof. induction futures as [|[img i] futures IH]; [done|]. cbn. by rewrite <- IH. Qed.

(** The OCR tasks of an accepted request are its scheduled futures. *)
Lemma submitted_expected_log (w : World) (reader_pages : list extract_text_outcome) :
  submitted (expected_log w reader_pages)
  = (λ item, (item.2, item.1)) <$> scheduled w reader_pages.
Proof.
  unfold expected_log.
  rewrite !submitted_app, submitted_extract_events, submitted_submit_events. done.
Qed.

(** * The claims *)

(** ** The page classifier *)

(** C2.  The classifier answers [Sufficient] exactly when the trimmed text
    has at least 20 characters: 19 trimmed characters give [NeedsOcr], 20
    give [Sufficient]. *)
Theorem classify_threshold (t : pystr) :
  (classify t = Sufficient ↔ 20 ≤ length (strip t))
  ∧ (length (strip t) = 19 → classify t = NeedsOcr)
  ∧ (length (strip t) = 20 → classify t = Sufficient).
Proof.
  assert (Hiff : classify t = Sufficient ↔ 20 ≤ length (strip t)).
  { unfold classify, needs_ocr. case_bool_decide; split; (done || lia). }
  split_and!; [exact Hiff | | intros H20; apply Hiff; lia].
  intros H19. unfold classify, needs_ocr. by rewrite bool_decide_eq_true_2 by lia.
Qed.

(** The boundary on two texts, of 19 and of 20 characters between whitespace. *)
Lemma classify_threshold_witness :
  classify STAGE_19 = NeedsOcr ∧ classify STAGE_20 = Sufficient.
Proof.
  split.
  - apply (classify_threshold STAGE_19). reflexivity.
  - apply (classify_threshold STAGE_20). reflexivity.
Defined.

(** ** The OCR adapter *)

Lemma lstrip_nil_iff (s : pystr) : lstrip s = [] ↔ forallb is_space s = true.
Proof.
  induction s as [|c s IH]; cbn; [done|].
  destruct (is_space c); cbn; [exact IH | done].
Qed.

(** Only a string of whitespace is trimmed to nothing. *)
Lemma strip_nil_iff (s : pystr) : strip s = [] ↔ forallb is_space s = true.
Proof.
  rewrite <- lstrip_nil_iff. unfold strip. split; [|by intros ->].
  destruct s as [|c s]; [done|]. cbn [lstrip].
  destruct (is_space c) eqn:Hc.
  - intros Hr. destruct (lstrip s) as [|d s'] eqn:Hl; [done|].
    assert (Hd : is_space d = false).
    { destruct (is_space d) eqn:Hd; [|done].
      pose proof (lstrip_lstrip s) as Hll. rewrite Hl in Hll. cbn in Hll.
      rewrite Hd in Hll. apply (f_equal length) in Hll. cbn in Hll.
      assert (Hlen : ∀ u, length (lstrip u) ≤ length u).
      { induction u as [|x u IHu]; cbn; [done|]. destruct (is_space x); cbn; lia. }
      specialize (Hlen s'). lia. }
    by rewrite rstrip_cons_nonspace in Hr.
  - by rewrite rstrip_cons_nonspace.
Qed.

(** What the adapter returns on every outcome of the call.  It never raises:
    [[OCR TIMEOUT]] when the call times out, [[OCR ERROR] cause] when the
    call raises anything else, and otherwise [[OCR EMPTY]] for an empty or
    whitespace-only output and the trimmed output for any other, whatever
    the exit status of the process was. *)
Theorem ocr_image_total (w : World) (image_path : path) (timeout_sec : Z) :
  ocr_image w image_path timeout_sec
  = Return match tesseract w image_path timeout_sec with
           | RunTimeout => py "[OCR TIMEOUT]"
           | RunFails cause => py "[OCR ERROR] " ++ cause
           | RunExits _ out =>
               if forallb is_space out then py "[OCR EMPTY]" else strip out
           end.
Proof.
  unfold ocr_image. destruct (tesseract w image_path timeout_sec) as [|cause|rc out]; [done..|].
  cbn [subprocess_run andb mbind result_bind try_except stdout].
  pose proof (strip_nil_iff out) as [Hnil Hspace].
  destruct (strip out) as [|c s]; cbn [truthy].
  - by rewrite (Hnil eq_refl).
  - destruct (forallb is_space out); [|done]. by specialize (Hspace eq_refl).
Qed.

(** C4, where the code departs from it.  A tesseract process that fails
    (exit status 1, nothing printed) is an invocation failure, for which the
    claim has [[OCR ERROR] cause]; [ocr_image] returns [[OCR EMPTY]], and
    the trimmed text when the process printed some before it failed.  The
    call is made without [check=True], so [subprocess.run] returns where the
    same call with [check=True], as [convert_pdf_to_images] makes it, raises
    [CalledProcessError]: on the same world that adapter does treat exit
    status 1 as a failure. *)
Theorem ocr_image_misses_failed_process :
  tesseract failed_processes (Path (py "/tmp/tmpq7") (py "page-2.jpg")) 8 = RunExits 1 []
  ∧ ocr_image failed_processes (Path (py "/tmp/tmpq7") (py "page-2.jpg")) 8
    = Return (py "[OCR EMPTY]")
  ∧ ocr_image failed_processes (Path (py "/tmp/tmpq7") (py "page-3.jpg")) 8
    = Return (py "Plan: rep")
  ∧ subprocess_run false (RunExits 1 []) = Return {| returncode := 1; stdout := [] |}
  ∧ subprocess_run true (RunExits 1 []) = Raise (CalledProcessError 1)
  ∧ pdftoppm failed_processes = RunExits 1 []
  ∧ run (convert_pdf_to_images failed_processes) = (Return [], [EvRasterize]).
Proof. split_and!; reflexivity. Qed.

(** ** The gate on the file name *)

Lemma endswith_suffix (s sfx : pystr) : endswith s sfx = true ↔ sfx `suffix_of` s.
Proof.
  unfold endswith. rewrite bool_decide_eq_true. split.
  - intros Hdrop. exists (take (length s - length sfx) s).
    rewrite <- Hdrop at 2. by rewrite take_drop.
  - intros [k ->]. rewrite length_app, Nat.add_sub. apply drop_app_length.
Qed.

Lemma lower_app (a b : pystr) : lower (a ++ b) = lower a ++ lower b.
Proof. unfold lower. by rewrite map_app, concat_app. Qed.

Lemma lower_char_inv (x z : char) :
  lower_char x = [z] →
  x = z ∨ ((65 ≤ x ≤ 90)%N ∧ z = (x + 32)%N) ∨ (x = 8490%N ∧ z = 107%N).
Proof.
  unfold lower_char.
  destruct (N.leb_spec 65 x), (N.leb_spec x 90); cbn [andb];
    try (intros [= <-]; right; left; split; [lia | done]);
    destruct (N.eqb_spec x 8490); try (intros [= <-]; right; right; done);
    destruct (N.eqb_spec x 304); try done; intros [= <-]; by left.
Qed.

(** The last character of a lower-cased name comes from its last character,
    unless it is the combining dot. *)
Lemma lower_snoc_suffix (sfx n1 : pystr) (x z : char) :
  z ≠ 775%N →
  (sfx ++ [z]) `suffix_of` lower (n1 ++ [x]) →
  lower_char x = [z] ∧ sfx `suffix_of` lower n1.
Proof.
  intros Hz. rewrite lower_app.
  replace (lower [x]) with (lower_char x) by (unfold lower; cbn; by rewrite app_nil_r).
  unfold lower_char.
  destruct ((65 <=? x)%N && (x <=? 90)%N); [|destruct (x =? 8490)%N; [|destruct (x =? 304)%N]].
  - intros Hs. split; [|by eapply suffix_snoc_inv_2].
    by rewrite (suffix_snoc_inv_1 _ _ _ _ Hs).
  - intros Hs. split; [|by eapply suffix_snoc_inv_2].
    by rewrite (suffix_snoc_inv_1 _ _ _ _ Hs).
  - change [105; 775]%N with ([105] ++ [775])%N. rewrite app_assoc.
    intros Hs. by apply suffix_snoc_inv_1 in Hs.
  - intros Hs. split; [|by eapply suffix_snoc_inv_2].
    by rewrite (suffix_snoc_inv_1 _ _ _ _ Hs).
Qed.

(** The test of the route is the comparison of the last four characters
    without regard to case. *)
Lemma endswith_lower_pdf (name : pystr) :
  endswith (lower name) (py ".pdf") = true ↔ ends_in_pdf name.
Proof.
  rewrite endswith_suffix. change (py ".pdf") with [46; 112; 100; 102]%N. split.
  - intros Hs.
    destruct name as [|c n1 _] using rev_ind; [by apply suffix_cons_nil_inv in Hs|].
    apply (lower_snoc_suffix [46; 112; 100]%N) in Hs as [Hc Hs]; [|done].
    destruct n1 as [|b n2 _] using rev_ind; [by apply suffix_cons_nil_inv in Hs|].
    apply (lower_snoc_suffix [46; 112]%N) in Hs as [Hb Hs]; [|done].
    destruct n2 as [|a n3 _] using rev_ind; [by apply suffix_cons_nil_inv in Hs|].
    apply (lower_snoc_suffix [46]%N) in Hs as [Ha Hs]; [|done].
    destruct n3 as [|d n4 _] using rev_ind; [by apply suffix_cons_nil_inv in Hs|].
    apply (lower_snoc_suffix []) in Hs as [Hd _]; [|done].
    apply lower_char_inv in Ha, Hb, Hc, Hd.
    exists n4, a, b, c. split_and!; [|lia..].
    replace d with 46%N by lia. by rewrite <- !app_assoc.
  - intros (base & a & b & c & -> & Ha & Hb & Hc).
    rewrite lower_app. apply suffix_app_r.
    destruct Ha as [-> | ->], Hb as [-> | ->], Hc as [-> | ->]; by exists [].
Qed.

(** C9.  An upload whose name does not end in [.pdf], compared without
    regard to case, is rejected with status 400 before anything is saved,
    parsed, rasterized or recognised: the log of calls is empty. *)
Theorem non_pdf_rejected (w : World)
    (as_completed : list (Future * nat) → list (Future * nat)) :
  ¬ ends_in_pdf (upload_filename w) →
  run (extract_pdf w as_completed)
  = (Raise (HTTPException 400 (py "File must be a PDF")), []).
Proof.
  intros Hname. unfold run, extract_pdf.
  destruct (endswith (lower (upload_filename w)) (py ".pdf")) eqn:Htest; [|done].
  by apply endswith_lower_pdf in Htest.
Qed.

Lemma non_pdf_rejected_witness :
  run (extract_pdf not_a_pdf id)
  = (Raise (HTTPException 400 (py "File must be a PDF")), []).
Proof.
  apply (non_pdf_rejected not_a_pdf id).
  intros Hpdf%endswith_lower_pdf. discriminate Hpdf.
Defined.

(** ** Documents whose pages all have a text layer *)

Lemma pages_needing_ocr_nil (texts : list pystr) :
  Forall (λ t, needs_ocr t = false) texts → pages_needing_ocr texts = [].
Proof.
  intros Hall. destruct (pages_needing_ocr texts) as [|i l] eqn:Hl; [done|].
  assert (Hi : i ∈ pages_needing_ocr texts) by (rewrite Hl; left).
  apply elem_of_pages_needing_ocr in Hi as (t & Ht & Hn).
  rewrite Forall_lookup in Hall. specialize (Hall i t Ht). congruence.
Qed.

Lemma sufficient_not_needs_ocr (t : pystr) : 20 ≤ length (strip t) → needs_ocr t = false.
Proof. intros Hlen. unfold needs_ocr. apply bool_decide_eq_false_2. lia. Qed.

(** C1, as the code has it.  When the trimmed direct text of every page has
    at least 20 characters, the request returns [ocr_used = false], every
    page keeps its direct text and no OCR task is scheduled; pdftoppm is
    still run, once, after the texts are extracted. *)
Theorem all_sufficient_no_ocr (w : World) (reader_pages : list extract_text_outcome)
    (as_completed : list (Future * nat) → list (Future * nat)) :
  accepted w reader_pages →
  Forall (λ p, 20 ≤ length (strip (direct_text p))) reader_pages →
  ∃ r log,
    run (extract_pdf w as_completed) = (Return r, log)
    ∧ ocr_used r = false
    ∧ text <$> pages r = direct_text <$> reader_pages
    ∧ submitted log = []
    ∧ log = [EvSaveUpload; EvOpenPdf]
            ++ (EvExtractText <$> seq 0 (length reader_pages)) ++ [EvRasterize].
Proof.
  intros Hacc Hall.
  assert (Hnone : pages_needing_ocr (direct_text <$> reader_pages) = []).
  { apply pages_needing_ocr_nil, Forall_fmap.
    eapply Forall_impl; [exact Hall|]. intros p. apply sufficient_not_needs_ocr. }
  exists (expected_response w reader_pages), (expected_log w reader_pages).
  assert (Hsched : scheduled w reader_pages = []) by (unfold scheduled; by rewrite Hnone).
  split_and!.
  - apply extract_pdf_run_weak; [done|]. by rewrite Hnone.
  - cbn [ocr_used expected_response]. by rewrite Hnone.
  - cbn [pages expected_response]. unfold final_texts.
    rewrite final_texts_no_ocr by done.
    apply list_eq. intros i.
    rewrite !list_lookup_fmap, enumerate_from_lookup, list_lookup_fmap.
    by destruct (reader_pages !! i).
  - by rewrite submitted_expected_log, Hsched.
  - unfold expected_log. by rewrite Hsched.
Qed.

Lemma all_sufficient_no_ocr_witness :
  ∃ r log,
    run (extract_pdf text_only id) = (Return r, log)
    ∧ ocr_used r = false
    ∧ text <$> pages r = direct_text <$> [ExtractReturns (Some LAB_TEXT)]
    ∧ submitted log = []
    ∧ log = [EvSaveUpload; EvOpenPdf] ++ (EvExtractText <$> seq 0 1) ++ [EvRasterize].
Proof.
  apply (all_sufficient_no_ocr text_only [ExtractReturns (Some LAB_TEXT)] id).
  - split; reflexivity.
  - constructor; [vm_compute; lia | constructor].
Defined.

(** C1 as stated fails: on a one-page document with a text layer the
    rasterizer is run all the same. *)
Lemma all_sufficient_still_rasterized :
  accepted text_only [ExtractReturns (Some LAB_TEXT)]
  ∧ Forall (λ p, 20 ≤ length (strip (direct_text p))) [ExtractReturns (Some LAB_TEXT)]
  ∧ EvRasterize ∈ (run (extract_pdf text_only id)).2.
Proof.
  split_and!.
  - split; reflexivity.
  - constructor; [vm_compute; lia | constructor].
  - change ((run (extract_pdf text_only id)).2)
      with [EvSaveUpload; EvOpenPdf; EvExtractText 0; EvRasterize].
    set_solver.
Qed.

(** ** Every page gets a text *)

Lemma literal_app_nonempty (a b : pystr) : 0 < length a → a ++ b ≠ [].
Proof. destruct a; cbn; [lia | done]. Qed.

Lemma sentinel_nonempty (t : pystr) : is_sentinel t → t ≠ [].
Proof.
  intros [->|[->|[->|[[c ->]|[c ->]]]]]; try done;
    apply literal_app_nonempty; vm_compute; lia.
Qed.

(** The slot of a page whose task ran holds a mark or the output of
    tesseract, never the empty string. *)
Lemma task_text_cases (w : World) (img : path) :
  is_sentinel (task_text w img) ∨ is_ocr_output w (task_text w img).
Proof.
  unfold task_text, future_result.
  destruct (pool_fault w img) as [cause|].
  { left. do 4 right. by exists cause. }
  unfold ocr_image.
  destruct (tesseract w img 8) as [|cause|rc out] eqn:Hrun;
    cbn [subprocess_run andb mbind result_bind try_except stdout].
  - left. right. by left.
  - left. do 3 right. left. by exists cause.
  - destruct (strip out) as [|c s] eqn:Hout; cbn [truthy].
    + left. do 2 right. by left.
    + right. exists img, rc, out. by rewrite Hout.
Qed.

(** C3.  An accepted request returns one entry per page of the document,
    numbered 1, 2, ... in order, and the text of every entry is set: it is
    the direct text of the page, of 20 trimmed characters or more, or one of
    the marks, or the output of OCR, and never the empty string the array
    was filled with. *)
Theorem every_page_has_text (w : World) (reader_pages : list extract_text_outcome)
    (as_completed : list (Future * nat) → list (Future * nat)) :
  accepted w reader_pages → completion_order as_completed →
  ∃ r log,
    run (extract_pdf w as_completed) = (Return r, log)
    ∧ page_count r = length reader_pages
    ∧ length (pages r) = length reader_pages
    ∧ ∀ i p, reader_pages !! i = Some p →
        ∃ t, pages r !! i = Some {| page_number := i + 1; text := t |}
             ∧ t ≠ []
             ∧ ((t = direct_text p ∧ 20 ≤ length (strip t))
                ∨ is_sentinel t ∨ is_ocr_output w t).
Proof.
  intros Hacc Horder.
  exists (expected_response w reader_pages), (expected_log w reader_pages).
  split_and!.
  - by apply extract_pdf_run.
  - done.
  - cbn [pages expected_response].
    by rewrite length_fmap, enumerate_from_length, final_texts_length.
  - intros i p Hp. eexists. split; [by rewrite expected_pages_lookup, Hp|].
    unfold final_text. destruct (needs_ocr (direct_text p)) eqn:Hneeds.
    + assert (Hcases : ∀ t, is_sentinel t ∨ is_ocr_output w t →
                            t ≠ [] ∧ ((t = direct_text p ∧ 20 ≤ length (strip t))
                                      ∨ is_sentinel t ∨ is_ocr_output w t)).
      { intros t [Hs|Ho]; split; [by apply sentinel_nonempty | by right; left
                                 | by destruct Ho as (? & ? & ? & _ & _ & ?) | by do 2 right]. }
      destruct (page_images w (length reader_pages) !! Z.of_nat i) as [img|].
      * apply Hcases, task_text_cases.
      * apply Hcases. left. by left.
    + unfold needs_ocr in Hneeds. apply bool_decide_eq_false in Hneeds.
      split; [|left; split; [done | lia]].
      intros Hnil. rewrite Hnil in Hneeds. cbn in Hneeds. lia.
Qed.

Lemma every_page_has_text_witness :
  ∃ r log,
    run (extract_pdf mixed reverse) = (Return r, log)
    ∧ page_count r = length mixed_pages
    ∧ length (pages r) = length mixed_pages
    ∧ ∀ i p, mixed_pages !! i = Some p →
        ∃ t, pages r !! i = Some {| page_number := i + 1; text := t |}
             ∧ t ≠ []
             ∧ ((t = direct_text p ∧ 20 ≤ length (strip t))
                ∨ is_sentinel t ∨ is_ocr_output mixed t).
Proof.
  apply (every_page_has_text mixed mixed_pages reverse).
  - split; reflexivity.
  - intros futures. apply reverse_Permutation.
Defined.

(** ** When the rasterizer fails *)

Lemma rasterized_nil (w : World) : rasterization_failed w → rasterized w = [].
Proof.
  intros [Hrun|[[cause Hrun]|[(rc & out & Hrun & Hrc)|Hfiles]]].
  - apply (rasterized_failed w TimeoutExpired). by rewrite Hrun.
  - apply (rasterized_failed w (Error cause)). by rewrite Hrun.
  - apply (rasterized_failed w (CalledProcessError rc)). rewrite Hrun. cbn.
    by destruct (Z.eqb_spec rc 0).
  - destruct (rasterized_files w) as (fs & Hsub & _ & ->).
    rewrite Hfiles in Hsub. destruct fs as [|f fs]; [done|].
    specialize (Hsub f). rewrite elem_of_cons in Hsub.
    exfalso. eapply elem_of_nil, Hsub. by left.
Qed.

(** C5.  When the batch rasterization fails, the adapter returns the empty
    sequence; the request then still succeeds, schedules no OCR task, gives
    every page classified needs-ocr the text [[NO IMAGE AVAILABLE FOR OCR]]
    and leaves every page with sufficient direct text as it is. *)
Theorem rasterization_failure_is_soft (w : World)
    (reader_pages : list extract_text_outcome)
    (as_completed : list (Future * nat) → list (Future * nat)) :
  accepted w reader_pages → completion_order as_completed →
  rasterization_failed w →
  run (convert_pdf_to_images w) = (Return [], [EvRasterize])
  ∧ ∃ r log,
      run (extract_pdf w as_completed) = (Return r, log)
      ∧ status r = py "success"
      ∧ submitted log = []
      ∧ ∀ i p, reader_pages !! i = Some p →
          pages r !! i
          = Some {| page_number := i + 1;
                    text := match classify (direct_text p) with
                            | NeedsOcr => NO_IMAGE
                            | Sufficient => direct_text p
                            end |}.
Proof.
  intros Hacc Horder Hfailed. pose proof (rasterized_nil w Hfailed) as Hnil.
  split.
  { unfold run. by rewrite convert_pdf_to_images_run, Hnil. }
  exists (expected_response w reader_pages), (expected_log w reader_pages).
  pose proof (page_images_failed w (length reader_pages) Hnil) as Hmap.
  split_and!.
  - by apply extract_pdf_run.
  - done.
  - rewrite submitted_expected_log. unfold scheduled. rewrite Hmap.
    destruct (new_futures ∅ _) as [|[img i] l] eqn:Hfut; [done|].
    assert (Hin : (img, i) ∈ new_futures ∅ (pages_needing_ocr (direct_text <$> reader_pages)))
      by (rewrite Hfut; left).
    apply elem_of_new_futures in Hin as [_ Hin]. by rewrite lookup_empty in Hin.
  - intros i p Hp. rewrite expected_pages_lookup, Hp. cbn [fmap option_fmap option_map].
    unfold final_text, classify. rewrite Hmap, lookup_empty.
    by destruct (needs_ocr (direct_text p)).
Qed.

Lemma rasterization_failure_is_soft_witness :
  run (convert_pdf_to_images mixed_no_images) = (Return [], [EvRasterize])
  ∧ ∃ r log,
      run (extract_pdf mixed_no_images reverse) = (Return r, log)
      ∧ status r = py "success"
      ∧ submitted log = []
      ∧ ∀ i p, mixed_pages !! i = Some p →
          pages r !! i
          = Some {| page_number := i + 1;
                    text := match classify (direct_text p) with
                            | NeedsOcr => NO_IMAGE
                            | Sufficient => direct_text p
                            end |}.
Proof.
  apply (rasterization_failure_is_soft mixed_no_images mixed_pages reverse).
  - split; reflexivity.
  - intros futures. apply reverse_Permutation.
  - left. reflexivity.
Defined.

(** ** Completion order *)

(** C6.  The order in which the OCR tasks complete has no effect: any two
    orders give the same response, and for any tasks with distinct page
    indices the collecting loop fills the same array under any two orders of
    arrival, each result in the slot of its task's page index. *)
Theorem completion_order_irrelevant (w : World) :
  (∀ order1 order2, completion_order order1 → completion_order order2 →
     run (extract_pdf w order1) = run (extract_pdf w order2))
  ∧ (∀ (texts : list pystr) (arrival1 arrival2 : list (Future * nat)),
       arrival1 ≡ₚ arrival2 → NoDup arrival1.*2 →
       Forall (λ item, item.2 < length texts) arrival1 →
       ∃ final,
         collect w arrival1 texts = Return final
         ∧ collect w arrival2 texts = Return final
         ∧ ∀ fut idx, (fut, idx) ∈ arrival1 → final !! idx = Some (task_text w fut)).
Proof.
  split.
  - intros order1 order2 H1 H2.
    destruct (endswith (lower (upload_filename w)) (py ".pdf")) eqn:Hname.
    2:{ unfold run, extract_pdf. by rewrite Hname. }
    destruct (pdf_reader w) as [cause|cause|reader_pages] eqn:Hreader.
    { unfold run, extract_pdf. by rewrite Hname, Hreader. }
    { unfold run, extract_pdf. by rewrite Hname, Hreader. }
    by rewrite !(extract_pdf_run w reader_pages).
  - intros texts arrival1 arrival2 Hp Hnd Hlt.
    exists (write_results w arrival1 texts). split_and!.
    + by apply collect_run.
    + rewrite (write_results_perm w _ _ _ Hp Hnd). apply collect_run. by rewrite <- Hp.
    + intros fut idx Hin. apply write_results_lookup; [done..|].
      rewrite Forall_forall in Hlt. apply (Hlt _ Hin).
Qed.

(** Two futures, completing in submission order and in the reverse order. *)
Lemma completion_order_irrelevant_witness :
  run (extract_pdf broken_page id) = run (extract_pdf broken_page reverse)
  ∧ ∃ final,
      collect broken_page (scheduled broken_page broken_pages)
        [strip LAB_TEXT; []; []] = Return final
      ∧ collect broken_page (reverse (scheduled broken_page broken_pages))
          [strip LAB_TEXT; []; []] = Return final
      ∧ ∀ fut idx, (fut, idx) ∈ scheduled broken_page broken_pages →
          final !! idx = Some (task_text broken_page fut).
Proof.
  split.
  - apply (proj1 (completion_order_irrelevant broken_page)).
    + intros futures. reflexivity.
    + intros futures. apply reverse_Permutation.
  - apply (proj2 (completion_order_irrelevant broken_page)).
    + symmetry. apply reverse_Permutation.
    + apply new_futures_NoDup, pages_needing_ocr_NoDup.
    + apply Forall_forall. intros [img i] [Hin _]%elem_of_new_futures.
      apply pages_needing_ocr_lt in Hin. exact Hin.
Defined.

(** That request schedules two futures, for pages 2 and 3; reversing them
    is another order of arrival. *)
Example completion_order_two_futures :
  (scheduled broken_page broken_pages).*2 = [1; 2]
  ∧ reverse (scheduled broken_page broken_pages) ≠ scheduled broken_page broken_pages.
Proof. split; [reflexivity | discriminate]. Qed.

(** ** Three pages, the middle one scanned *)

(** C7, as the code has it.  For a document of three pages where pages 1
    and 3 have direct text of at least 20 trimmed characters and page 2 has
    none, the response has [ocr_used = true] and reports the direct text of
    pages 1 and 3 unchanged.  OCR is scheduled for page 2 only: one task
    when the dictionary has an image for it, which is the case whenever
    pdftoppm succeeded and wrote a file numbered 2, and none otherwise, when
    page 2 reads [[NO IMAGE AVAILABLE FOR OCR]]. *)
Theorem three_page_fallback (w : World) (p1 p2 p3 : extract_text_outcome)
    (as_completed : list (Future * nat) → list (Future * nat)) :
  accepted w [p1; p2; p3] → completion_order as_completed →
  20 ≤ length (strip (direct_text p1)) →
  direct_text p2 = [] →
  20 ≤ length (strip (direct_text p3)) →
  ∃ r log t2,
    run (extract_pdf w as_completed) = (Return r, log)
    ∧ ocr_used r = true
    ∧ pages r = [ {| page_number := 1; text := direct_text p1 |};
                  {| page_number := 2; text := t2 |};
                  {| page_number := 3; text := direct_text p3 |} ]
    ∧ ((∃ img, page_images w 3 !! 1%Z = Some img
               ∧ submitted log = [(1, img)] ∧ t2 = task_text w img)
       ∨ (page_images w 3 !! 1%Z = None
          ∧ submitted log = [] ∧ t2 = NO_IMAGE))
    ∧ ((∃ c f, subprocess_run true (pdftoppm w) = Return c
               ∧ f ∈ pdftoppm_files w ∧ page_file_number f = 2%Z)
       → ∃ img, submitted log = [(1, img)]).
Proof.
  intros Hacc Horder H1 H2 H3.
  pose proof (extract_pdf_run w _ as_completed Hacc Horder) as Hrun.
  assert (Hneeding : pages_needing_ocr (direct_text <$> [p1; p2; p3]) = [1]).
  { unfold pages_needing_ocr. cbn [fmap list_fmap enumerate_from List.filter snd].
    rewrite (sufficient_not_needs_ocr _ H1), (sufficient_not_needs_ocr _ H3).
    by rewrite H2. }
  assert (Hlog : submitted (expected_log w [p1; p2; p3])
                 = match page_images w 3 !! 1%Z with
                   | Some img => [(1, img)]
                   | None => []
                   end).
  { rewrite submitted_expected_log. unfold scheduled. rewrite Hneeding.
    rewrite new_futures_cons. change (Z.of_nat 1) with 1%Z.
    change (length [p1; p2; p3]) with 3.
    by destruct (page_images w 3 !! 1%Z). }
  exists (expected_response w [p1; p2; p3]), (expected_log w [p1; p2; p3]),
    (final_text w (page_images w 3) 1 (direct_text p2)).
  assert (Ht2 : final_text w (page_images w 3) 1 (direct_text p2)
                = match page_images w 3 !! 1%Z with
                  | Some img => task_text w img
                  | None => NO_IMAGE
                  end).
  { unfold final_text. by rewrite H2. }
  split_and!.
  - exact Hrun.
  - cbn [ocr_used expected_response]. by rewrite Hneeding.
  - cbn [pages expected_response]. unfold final_texts.
    cbn [fmap list_fmap enumerate_from length fst snd entry_of Nat.add].
    unfold entry_of. cbn [fst snd Nat.add].
    unfold final_text at 1 3.
    by rewrite (sufficient_not_needs_ocr _ H1), (sufficient_not_needs_ocr _ H3).
  - rewrite Hlog, Ht2. destruct (page_images w 3 !! 1%Z) as [img|]; [left | right]; eauto.
  - intros (c & f & Hc & Hf & Hnum). rewrite Hlog.
    destruct (page_images_has w 3 c f Hc Hf) as [img Himg]; [lia|].
    rewrite Hnum in Himg. change (2 - 1)%Z with 1%Z in Himg. rewrite Himg. by exists img.
Qed.

Lemma three_page_fallback_witness :
  ∃ r log t2,
    run (extract_pdf mixed reverse) = (Return r, log)
    ∧ ocr_used r = true
    ∧ pages r = [ {| page_number := 1; text := direct_text (ExtractReturns (Some LAB_TEXT)) |};
                  {| page_number := 2; text := t2 |};
                  {| page_number := 3; text := direct_text (ExtractReturns (Some PLAN_TEXT)) |} ]
    ∧ ((∃ img, page_images mixed 3 !! 1%Z = Some img
               ∧ submitted log = [(1, img)] ∧ t2 = task_text mixed img)
       ∨ (page_images mixed 3 !! 1%Z = None
          ∧ submitted log = [] ∧ t2 = NO_IMAGE))
    ∧ ((∃ c f, subprocess_run true (pdftoppm mixed) = Return c
               ∧ f ∈ pdftoppm_files mixed ∧ page_file_number f = 2%Z)
       → ∃ img, submitted log = [(1, img)]).
Proof.
  apply (three_page_fallback mixed (ExtractReturns (Some LAB_TEXT)) (ExtractReturns None)
           (ExtractReturns (Some PLAN_TEXT)) reverse).
  - split; reflexivity.
  - intros futures. apply reverse_Permutation.
  - vm_compute. lia.
  - reflexivity.
  - vm_compute. lia.
Defined.

(** C7 as stated fails: when pdftoppm times out on such a document, no OCR
    task is scheduled at all, and page 2 gets the mark of a missing image. *)
Lemma three_page_no_task :
  accepted mixed_no_images mixed_pages
  ∧ direct_text <$> mixed_pages = [LAB_TEXT; []; strip PLAN_TEXT]
  ∧ 20 ≤ length (strip LAB_TEXT) ∧ 20 ≤ length (strip (strip PLAN_TEXT))
  ∧ ∃ r log,
      run (extract_pdf mixed_no_images id) = (Return r, log)
      ∧ ocr_used r = true
      ∧ submitted log = []
      ∧ text <$> pages r = [LAB_TEXT; NO_IMAGE; strip PLAN_TEXT].
Proof.
  split_and!; [split; reflexivity | reflexivity | vm_compute; lia.. |].
  remember (run (extract_pdf mixed_no_images id)) as res eqn:Hres.
  vm_compute in Hres. subst res.
  eexists _, _. split_and!; reflexivity.
Qed.

(** ** A page whose text cannot be extracted *)

(** The response and the log depend on the pages through their direct
    texts only. *)
Lemma expected_same_texts (w : World) (pages1 pages2 : list extract_text_outcome) :
  direct_text <$> pages1 = direct_text <$> pages2 →
  expected_response (with_pages w pages1) pages1 = expected_response w pages2
  ∧ expected_log (with_pages w pages1) pages1 = expected_log w pages2.
Proof.
  intros Htexts.
  assert (Hlen : length pages1 = length pages2).
  { apply (f_equal length) in Htexts. by rewrite !length_fmap in Htexts. }
  change (expected_response (with_pages w pages1) pages1) with (expected_response w pages1).
  change (expected_log (with_pages w pages1) pages1) with (expected_log w pages1).
  unfold expected_response, expected_log, scheduled, final_texts.
  by rewrite Htexts, Hlen.
Qed.

(** C8.  A page whose direct extraction raises is handled exactly as a page
    whose direct text is the empty string: the same text is stored, the page
    is classified needs-ocr, the request runs as it would on the document
    with that page empty, and it returns a response with an entry for the
    page instead of failing. *)
Theorem extraction_error_is_empty_text (w : World)
    (reader_pages : list extract_text_outcome) (i : nat) (cause : pystr)
    (as_completed : list (Future * nat) → list (Future * nat)) :
  accepted w reader_pages → completion_order as_completed →
  reader_pages !! i = Some (ExtractRaises cause) →
  direct_text (ExtractRaises cause) = direct_text (ExtractReturns (Some []))
  ∧ classify (direct_text (ExtractRaises cause)) = NeedsOcr
  ∧ i ∈ pages_needing_ocr (direct_text <$> reader_pages)
  ∧ run (extract_pdf w as_completed)
    = run (extract_pdf (with_pages w (<[i := ExtractReturns (Some [])]> reader_pages))
             as_completed)
  ∧ ∃ r log t,
      run (extract_pdf w as_completed) = (Return r, log)
      ∧ pages r !! i = Some {| page_number := i + 1; text := t |}.
Proof.
  intros Hacc Horder Hi. split_and!.
  - reflexivity.
  - reflexivity.
  - apply elem_of_pages_needing_ocr. exists []. by rewrite list_lookup_fmap, Hi.
  - rewrite (extract_pdf_run w reader_pages) by done.
    rewrite (extract_pdf_run _ (<[i := ExtractReturns (Some [])]> reader_pages));
      [|split; [apply Hacc | done] | done].
    destruct (expected_same_texts w (<[i := ExtractReturns (Some [])]> reader_pages)
                reader_pages) as [-> ->]; [|done].
    rewrite list_fmap_insert. apply list_insert_id. by rewrite list_lookup_fmap, Hi.
  - exists (expected_response w reader_pages), (expected_log w reader_pages).
    eexists. split; [by apply extract_pdf_run|].
    by rewrite expected_pages_lookup, Hi.
Qed.

Lemma extraction_error_is_empty_text_witness :
  ∃ r log t,
    run (extract_pdf broken_page reverse) = (Return r, log)
    ∧ pages r !! 1 = Some {| page_number := 2; text := t |}.
Proof.
  apply (extraction_error_is_empty_text broken_page broken_pages 1 (py "unknown filter")
           reverse).
  - split; reflexivity.
  - intros futures. apply reverse_Permutation.
  - reflexivity.
Defined.

(** ** Images beyond the last page *)

(** C10.  An image whose page number, less one, is not an index of the
    document is dropped when the dictionary is built; every key of the
    dictionary is an index below the page count; and in the OCR phase both
    loops run to their end on any request, every future carrying an index
    below the page count: no write to the array of texts is out of range. *)
Theorem images_out_of_range_dropped (w : World) :
  (∀ (num_pages : nat) (img_path : path) (rest : list path) (m : gmap Z path) (n : Z),
     page_key (path_name img_path) = Return n →
     ¬ (0 ≤ n - 1 < Z.of_nat num_pages)%Z →
     match_images num_pages (img_path :: rest) m = match_images num_pages rest m)
  ∧ (∀ (num_pages : nat) (k : Z) (img : path),
       page_images w num_pages !! k = Some img → (0 ≤ k < Z.of_nat num_pages)%Z)
  ∧ (∀ reader_pages as_completed,
       accepted w reader_pages → completion_order as_completed →
       let texts := direct_text <$> reader_pages in
       let page_to_image := page_images w (length reader_pages) in
       ∃ futures texts' final log,
         submit_tasks page_to_image (pages_needing_ocr texts) [] texts []
         = (Return (futures, texts'), log)
         ∧ Forall (λ item, item.2 < length texts') (as_completed futures)
         ∧ collect w (as_completed futures) texts' = Return final
         ∧ length final = length reader_pages
         ∧ ∃ r log', run (extract_pdf w as_completed) = (Return r, log')).
Proof.
  split_and!.
  - intros num_pages img_path rest m n Hkey Hout.
    cbn [match_images]. rewrite Hkey. cbn [mbind result_bind].
    by rewrite bool_decide_eq_false_2.
  - intros num_pages k img Hk. by apply page_images_lookup in Hk as [? _].
  - intros reader_pages as_completed Hacc Horder texts page_to_image.
    assert (Hlt : Forall (λ item : Future * nat,
                            item.2 < length (after_submit page_to_image
                                               (pages_needing_ocr texts) texts))
                    (as_completed (new_futures page_to_image (pages_needing_ocr texts)))).
    { apply Forall_forall. intros [img i]. rewrite (Horder _).
      intros [Hin _]%elem_of_new_futures. cbn.
      rewrite after_submit_length. by apply pages_needing_ocr_lt. }
    eexists _, _, _, _. split_and!.
    + by apply submit_tasks_run, pages_needing_ocr_lt.
    + exact Hlt.
    + by apply collect_run.
    + rewrite write_results_length, after_submit_length. unfold texts.
      by rewrite length_fmap.
    + eexists _, _. by apply extract_pdf_run.
Qed.

Lemma images_out_of_range_dropped_witness :
  match_images 1 [Path (py "/tmp/tmpq7") (py "page-02.jpg")] ∅ = match_images 1 [] ∅.
Proof.
  apply (proj1 (images_out_of_range_dropped extra_images) 1 _ [] ∅ 2%Z).
  - reflexivity.
  - lia.
Defined.

(** Of the three images only the first one is kept for the single page. *)
Example extra_images_dictionary :
  page_images extra_images 1 !! 0%Z = Some (Path (py "/tmp/tmpq7") (py "page-01.jpg"))
  ∧ page_images extra_images 1 !! 1%Z = None
  ∧ page_images extra_images 1 !! 2%Z = None.
Proof. split_and!; reflexivity. Qed.

(** * Further properties of the route and its adapters *)

(** ** How a request can end *)

(** X1.  A request ends in one of four ways, decided by the file name and
    by what pypdf does with the upload: status 400 when the name does not
    end in [.pdf], before any call; status 500 with [PDF read error: cause]
    when [PdfReader] raises on the saved upload; the exception of
    [reader.pages], unhandled, when the container opens but its pages
    cannot be listed (line 120 stands in no [try]); and a response with
    status [success] otherwise.  In the two middle cases the upload was
    saved and opened and nothing else was called.  Whatever pdftoppm,
    tesseract, the pool and [extract_text] do, they never fail a request. *)
Theorem request_outcomes (w : World)
    (as_completed : list (Future * nat) → list (Future * nat)) :
  completion_order as_completed →
  (¬ ends_in_pdf (upload_filename w)
   ∧ run (extract_pdf w as_completed)
     = (Raise (HTTPException 400 (py "File must be a PDF")), []))
  ∨ (ends_in_pdf (upload_filename w)
     ∧ ∃ cause, pdf_reader w = ReaderRaises cause
         ∧ run (extract_pdf w as_completed)
           = (Raise (HTTPException 500 (py "PDF read error: " ++ cause)),
              [EvSaveUpload; EvOpenPdf]))
  ∨ (ends_in_pdf (upload_filename w)
     ∧ ∃ cause, pdf_reader w = PagesRaise cause
         ∧ run (extract_pdf w as_completed)
           = (Raise (Error cause), [EvSaveUpload; EvOpenPdf]))
  ∨ (ends_in_pdf (upload_filename w)
     ∧ ∃ reader_pages r log, pdf_reader w = ReaderPages reader_pages
         ∧ run (extract_pdf w as_completed) = (Return r, log)
         ∧ status r = py "success"
         ∧ page_count r = length reader_pages).
Proof.
  intros Horder.
  destruct (endswith (lower (upload_filename w)) (py ".pdf")) eqn:Hname.
  - pose proof (proj1 (endswith_lower_pdf _) Hname) as Hpdf. right.
    destruct (pdf_reader w) as [cause|cause|reader_pages] eqn:Hreader.
    + left. split; [done|]. exists cause. split; [done|].
      unfold run, extract_pdf. rewrite Hname, Hreader. reflexivity.
    + right. left. split; [done|]. exists cause. split; [done|].
      unfold run, extract_pdf. rewrite Hname, Hreader. reflexivity.
    + do 2 right. split; [done|].
      exists reader_pages, (expected_response w reader_pages), (expected_log w reader_pages).
      split_and!; [done | by apply extract_pdf_run | done | done].
  - left. split.
    + intros Hpdf%endswith_lower_pdf. congruence.
    + unfold run, extract_pdf. by rewrite Hname.
Qed.

(** The third way, on an upload pypdf opens but cannot list the pages of. *)
Lemma request_outcomes_witness :
  ends_in_pdf (upload_filename encrypted)
  ∧ run (extract_pdf encrypted reverse)
    = (Raise (Error (py "File has not been decrypted")), [EvSaveUpload; EvOpenPdf]).
Proof.
  assert (Horder : completion_order reverse) by (intros futures; apply reverse_Permutation).
  destruct (request_outcomes encrypted reverse Horder)
    as [[_ Hrun]|[(_ & cause & Hreader & _)|[(Hpdf & cause & Hreader & Hrun)
       |(_ & pages & _ & _ & Hreader & _)]]].
  - discriminate Hrun.
  - discriminate Hreader.
  - injection Hreader as <-. by split.
  - discriminate Hreader.
Defined.

(** ** What each page ends with *)

Lemma pages_needing_ocr_nonempty (texts : list pystr) :
  0 < length (pages_needing_ocr texts) ↔ ∃ i t, texts !! i = Some t ∧ needs_ocr t = true.
Proof.
  split.
  - destruct (pages_needing_ocr texts) as [|i l] eqn:Hl; [cbn; lia|]. intros _.
    assert (Hi : i ∈ pages_needing_ocr texts) by (rewrite Hl; left).
    apply elem_of_pages_needing_ocr in Hi. by exists i.
  - intros (i & t & Ht & Hn).
    assert (Hi : i ∈ pages_needing_ocr texts) by (apply elem_of_pages_needing_ocr; eauto).
    destruct (pages_needing_ocr texts); [by apply elem_of_nil in Hi | cbn; lia].
Qed.

Lemma needs_ocr_short (t : pystr) : needs_ocr t = true ↔ length (strip t) < 20.
Proof. unfold needs_ocr. apply bool_decide_eq_true. Qed.

(** X2.  The flag [ocr_used] of a response is true exactly when some page of
    the document has a direct text of fewer than 20 trimmed characters,
    whatever became of the OCR of that page. *)
Theorem ocr_used_iff_short_page (w : World) (reader_pages : list extract_text_outcome)
    (as_completed : list (Future * nat) → list (Future * nat)) :
  accepted w reader_pages → completion_order as_completed →
  ∃ r log,
    run (extract_pdf w as_completed) = (Return r, log)
    ∧ (ocr_used r = true
       ↔ ∃ i p, reader_pages !! i = Some p ∧ length (strip (direct_text p)) < 20).
Proof.
  intros Hacc Horder.
  exists (expected_response w reader_pages), (expected_log w reader_pages).
  split; [by apply extract_pdf_run|].
  cbn [ocr_used expected_response].
  rewrite bool_decide_eq_true, pages_needing_ocr_nonempty. split.
  - intros (i & t & Ht & Hn). rewrite list_lookup_fmap in Ht.
    destruct (reader_pages !! i) as [p|] eqn:Hp; [|done]. injection Ht as <-.
    exists i, p. split; [done|]. by apply needs_ocr_short.
  - intros (i & p & Hp & Hshort). exists i, (direct_text p).
    split; [by rewrite list_lookup_fmap, Hp | by apply needs_ocr_short].
Qed.

Lemma ocr_used_iff_short_page_witness :
  ∃ r log,
    run (extract_pdf mixed reverse) = (Return r, log)
    ∧ (ocr_used r = true
       ↔ ∃ i p, mixed_pages !! i = Some p ∧ length (strip (direct_text p)) < 20).
Proof.
  apply (ocr_used_iff_short_page mixed mixed_pages reverse).
  - split; reflexivity.
  - intros futures. apply reverse_Permutation.
Defined.

(** X3.  A page whose direct text has 20 trimmed characters or more is
    reported with that text, whatever pdftoppm, tesseract and the pool do
    and whatever the other pages need. *)
Theorem sufficient_page_untouched (w : World) (reader_pages : list extract_text_outcome)
    (as_completed : list (Future * nat) → list (Future * nat)) :
  accepted w reader_pages → completion_order as_completed →
  ∃ r log,
    run (extract_pdf w as_completed) = (Return r, log)
    ∧ ∀ i p, reader_pages !! i = Some p →
        20 ≤ length (strip (direct_text p)) →
        pages r !! i = Some {| page_number := i + 1; text := direct_text p |}
        ∧ ∀ img, (i, img) ∉ submitted log.
Proof.
  intros Hacc Horder.
  exists (expected_response w reader_pages), (expected_log w reader_pages).
  split; [by apply extract_pdf_run|]. intros i p Hp Hlong. split.
  - rewrite expected_pages_lookup, Hp. cbn [fmap option_fmap option_map].
    unfold final_text. by rewrite sufficient_not_needs_ocr.
  - intros img. rewrite submitted_expected_log.
    intros ([img' i'] & [= -> ->] & Hin)%list_elem_of_fmap.
    apply elem_of_new_futures in Hin as [Hin _].
    apply elem_of_pages_needing_ocr in Hin as (t & Ht & Hn).
    rewrite list_lookup_fmap, Hp in Ht. injection Ht as <-.
    rewrite sufficient_not_needs_ocr in Hn; done.
Qed.

Lemma sufficient_page_untouched_witness :
  ∃ r log,
    run (extract_pdf mixed reverse) = (Return r, log)
    ∧ pages r !! 2 = Some {| page_number := 3; text := strip PLAN_TEXT |}
    ∧ ∀ img, (2, img) ∉ submitted log.
Proof.
  assert (Hacc : accepted mixed mixed_pages) by (split; reflexivity).
  assert (Horder : completion_order reverse) by (intros futures; apply reverse_Permutation).
  destruct (sufficient_page_untouched mixed mixed_pages reverse Hacc Horder)
    as (r & log & Hrun & Hpages).
  exists r, log. split; [exact Hrun|].
  apply (Hpages 2 (ExtractReturns (Some PLAN_TEXT))); [reflexivity | vm_compute; lia].
Defined.

Lemma ocr_image_returns (w : World) (img : path) (timeout_sec : Z) :
  ∃ o, ocr_image w img timeout_sec = Return o.
Proof.
  unfold ocr_image.
  destruct (tesseract w img timeout_sec) as [|cause|rc out];
    cbn [subprocess_run andb mbind result_bind try_except]; by eexists.
Qed.

Lemma filter_index_absent (l : list (nat * path)) (i : nat) :
  i ∉ l.*1 → filter (λ task : nat * path, task.1 = i) l = [].
Proof.
  induction l as [|[j x] l IH]; [done|]. cbn [fmap list_fmap fst].
  intros [Hne Hout]%not_elem_of_cons. rewrite filter_cons_False by (cbn; congruence).
  by apply IH.
Qed.

(** In a list with one entry per index, the entries of an index are that
    one. *)
Lemma filter_index_unique (l : list (nat * path)) (i : nat) (img : path) :
  NoDup l.*1 → (i, img) ∈ l → filter (λ task : nat * path, task.1 = i) l = [(i, img)].
Proof.
  induction l as [|[j x] l IH]; [by intros _ ?%elem_of_nil|].
  cbn [fmap list_fmap fst]. intros [Hj Hnd]%NoDup_cons [Heq|Hin]%elem_of_cons.
  - injection Heq as <- <-. rewrite filter_cons_True by done.
    by rewrite filter_index_absent.
  - assert (j ≠ i).
    { intros ->. apply Hj. apply list_elem_of_fmap. by exists (i, img). }
    rewrite filter_cons_False by (cbn; congruence). by apply IH.
Qed.

Lemma submitted_NoDup (w : World) (reader_pages : list extract_text_outcome) :
  NoDup (submitted (expected_log w reader_pages)).*1.
Proof.
  rewrite submitted_expected_log, <- list_fmap_compose.
  apply (new_futures_NoDup _ _ (pages_needing_ocr_NoDup _)).
Qed.

(** X4.  A page of fewer than 20 trimmed characters for which pdftoppm
    succeeded and wrote a file with the page's number gets exactly one OCR
    task: the tasks submitted for the page are a single one, on an image
    with that number in the output directory.  The page is reported with
    what [ocr_image] returns for this image under the default budget of 8
    seconds; if the pool fails to deliver the result, with
    [[OCR FAILED] cause]. *)
Theorem short_page_with_image (w : World) (reader_pages : list extract_text_outcome)
    (as_completed : list (Future * nat) → list (Future * nat)) :
  accepted w reader_pages → completion_order as_completed →
  ∃ r log,
    run (extract_pdf w as_completed) = (Return r, log)
    ∧ ∀ i p c f, reader_pages !! i = Some p →
        length (strip (direct_text p)) < 20 →
        subprocess_run true (pdftoppm w) = Return c →
        f ∈ pdftoppm_files w → page_file_number f = (Z.of_nat i + 1)%Z →
        ∃ f' o,
          f' ∈ pdftoppm_files w ∧ page_file_number f' = (Z.of_nat i + 1)%Z
          ∧ filter (λ task : nat * path, task.1 = i) (submitted log)
            = [(i, Path (output_dir w) (page_file_name f'))]
          ∧ ocr_image w (Path (output_dir w) (page_file_name f')) 8 = Return o
          ∧ pages r !! i
            = Some {| page_number := i + 1;
                      text := match pool_fault w (Path (output_dir w) (page_file_name f')) with
                              | Some cause => py "[OCR FAILED] " ++ cause
                              | None => o
                              end |}.
Proof.
  intros Hacc Horder.
  exists (expected_response w reader_pages), (expected_log w reader_pages).
  split; [by apply extract_pdf_run|]. intros i p c f Hp Hshort Hrun Hf Hnum.
  assert (Hi : i < length reader_pages) by (by eapply lookup_lt_Some).
  destruct (page_images_has w (length reader_pages) c f Hrun Hf) as [img Himg]; [lia|].
  replace (page_file_number f - 1)%Z with (Z.of_nat i) in Himg by lia.
  destruct (page_images_lookup _ _ _ _ Himg) as (_ & f' & Hf' & Hnum' & ->).
  destruct (ocr_image_returns w (Path (output_dir w) (page_file_name f')) 8) as [o Ho].
  exists f', o. split_and!; [done | done | | done |].
  - apply filter_index_unique; [apply submitted_NoDup|].
    rewrite submitted_expected_log. apply list_elem_of_fmap.
    exists (Path (output_dir w) (page_file_name f'), i). split; [done|].
    apply elem_of_new_futures. split; [|done].
    apply elem_of_pages_needing_ocr. exists (direct_text p).
    split; [by rewrite list_lookup_fmap, Hp | by apply needs_ocr_short].
  - rewrite expected_pages_lookup, Hp. cbn [fmap option_fmap option_map].
    unfold final_text. rewrite (proj2 (needs_ocr_short _) Hshort), Himg.
    unfold task_text, future_result.
    destruct (pool_fault w _) as [cause|]; [done|]. by rewrite Ho.
Qed.

Lemma short_page_with_image_witness :
  ∃ r log f' o,
    run (extract_pdf mixed reverse) = (Return r, log)
    ∧ f' ∈ pdftoppm_files mixed ∧ page_file_number f' = 2%Z
    ∧ filter (λ task : nat * path, task.1 = 1) (submitted log)
      = [(1, Path (output_dir mixed) (page_file_name f'))]
    ∧ ocr_image mixed (Path (output_dir mixed) (page_file_name f')) 8 = Return o
    ∧ pages r !! 1
      = Some {| page_number := 2;
                text := match pool_fault mixed
                                (Path (output_dir mixed) (page_file_name f')) with
                        | Some cause => py "[OCR FAILED] " ++ cause
                        | None => o
                        end |}.
Proof.
  assert (Hacc : accepted mixed mixed_pages) by (split; reflexivity).
  assert (Horder : completion_order reverse) by (intros futures; apply reverse_Permutation).
  destruct (short_page_with_image mixed mixed_pages reverse Hacc Horder)
    as (r & log & Hrun & Hpages).
  destruct (Hpages 1 (ExtractReturns None) {| returncode := 0; stdout := [] |} (2, []))
    as (f' & o & H); [reflexivity | vm_compute; lia | reflexivity | | reflexivity |].
  - apply list_elem_of_In. right. left. reflexivity.
  - exists r, log, f', o. split; [exact Hrun | exact H].
Defined.

(** X5.  A page of fewer than 20 trimmed characters for which pdftoppm
    failed, or wrote no file with the page's number, is reported with
    [[NO IMAGE AVAILABLE FOR OCR]], and no OCR task is submitted for it. *)
Theorem short_page_without_image (w : World) (reader_pages : list extract_text_outcome)
    (as_completed : list (Future * nat) → list (Future * nat)) :
  accepted w reader_pages → completion_order as_completed →
  ∃ r log,
    run (extract_pdf w as_completed) = (Return r, log)
    ∧ ∀ i p, reader_pages !! i = Some p →
        length (strip (direct_text p)) < 20 →
        (∃ e, subprocess_run true (pdftoppm w) = Raise e)
        ∨ (∀ f, f ∈ pdftoppm_files w → page_file_number f ≠ (Z.of_nat i + 1)%Z) →
        pages r !! i = Some {| page_number := i + 1; text := NO_IMAGE |}
        ∧ ∀ img, (i, img) ∉ submitted log.
Proof.
  intros Hacc Horder.
  exists (expected_response w reader_pages), (expected_log w reader_pages).
  split; [by apply extract_pdf_run|]. intros i p Hp Hshort Hnone.
  assert (Hmap : page_images w (length reader_pages) !! Z.of_nat i = None).
  { destruct Hnone as [[e He]|Hnone].
    - rewrite page_images_failed; [done | by eapply rasterized_failed].
    - destruct (page_images w (length reader_pages) !! Z.of_nat i) as [img|] eqn:Himg; [|done].
      apply page_images_lookup in Himg as (_ & f & Hf & Hnum & _).
      by destruct (Hnone f Hf). }
  split.
  - rewrite expected_pages_lookup, Hp. cbn [fmap option_fmap option_map].
    unfold final_text. by rewrite (proj2 (needs_ocr_short _) Hshort), Hmap.
  - intros img. rewrite submitted_expected_log.
    intros ([img' i'] & [= -> ->] & Hin)%list_elem_of_fmap.
    apply elem_of_new_futures in Hin as [_ Hin]. congruence.
Qed.

Lemma short_page_without_image_witness :
  ∃ r log,
    run (extract_pdf mixed_no_images reverse) = (Return r, log)
    ∧ pages r !! 1 = Some {| page_number := 2; text := NO_IMAGE |}
    ∧ ∀ img, (1, img) ∉ submitted log.
Proof.
  assert (Hacc : accepted mixed_no_images mixed_pages) by (split; reflexivity).
  assert (Horder : completion_order reverse) by (intros futures; apply reverse_Permutation).
  destruct (short_page_without_image mixed_no_images mixed_pages reverse Hacc Horder)
    as (r & log & Hrun & Hpages).
  exists r, log. split; [exact Hrun|].
  apply (Hpages 1 (ExtractReturns None)); [reflexivity | vm_compute; lia |].
  left. exists TimeoutExpired. reflexivity.
Defined.

(** ** The OCR tasks of a request *)

Lemma needing_from_sorted (k : nat) (texts : list pystr) :
  StronglySorted lt (List.filter (λ it, needs_ocr it.2) (enumerate_from k texts)).*1.
Proof.
  revert k. induction texts as [|t texts IH]; intros k; [constructor|].
  cbn [enumerate_from List.filter snd]. destruct (needs_ocr t); [|apply IH].
  cbn [fmap list_fmap fst]. constructor; [apply IH|].
  apply Forall_forall. intros i Hi.
  apply (proj2 (needing_from (S k) texts)) in Hi as [Hle _]. lia.
Qed.

Lemma new_futures_sorted (m : gmap Z path) (needing : list nat) :
  StronglySorted lt needing → StronglySorted lt (new_futures m needing).*2.
Proof.
  induction 1 as [|i needing Hs IH Hall]; [constructor|].
  rewrite new_futures_cons. destruct (m !! Z.of_nat i) as [img|]; [|done].
  cbn [fmap list_fmap snd]. constructor; [done|].
  apply Forall_forall. intros j ([img' j'] & -> & Hin)%list_elem_of_fmap.
  apply elem_of_new_futures in Hin as [Hin _].
  rewrite Forall_forall in Hall. by apply Hall.
Qed.

(** X6.  The OCR tasks of a request are submitted in strictly ascending page
    order, at most one per page, and only for pages of the document whose
    direct text has fewer than 20 trimmed characters; the image of a task is
    a file pdftoppm wrote under the page's number. *)
Theorem tasks_ascending (w : World) (reader_pages : list extract_text_outcome)
    (as_completed : list (Future * nat) → list (Future * nat)) :
  accepted w reader_pages → completion_order as_completed →
  ∃ r log,
    run (extract_pdf w as_completed) = (Return r, log)
    ∧ StronglySorted lt (submitted log).*1
    ∧ length (submitted log) ≤ length reader_pages
    ∧ ∀ i img, (i, img) ∈ submitted log →
        (∃ p, reader_pages !! i = Some p ∧ length (strip (direct_text p)) < 20)
        ∧ ∃ f, f ∈ pdftoppm_files w ∧ page_file_number f = (Z.of_nat i + 1)%Z
               ∧ img = Path (output_dir w) (page_file_name f).
Proof.
  intros Hacc Horder.
  exists (expected_response w reader_pages), (expected_log w reader_pages).
  split; [by apply extract_pdf_run|].
  rewrite submitted_expected_log.
  assert (Hsorted : StronglySorted lt (scheduled w reader_pages).*2)
    by apply new_futures_sorted, needing_from_sorted.
  assert (Hmem : ∀ i img, (i, img) ∈ (λ item : path * nat, (item.2, item.1))
                                       <$> scheduled w reader_pages →
                          i < length reader_pages
                          ∧ i ∈ pages_needing_ocr (direct_text <$> reader_pages)
                          ∧ page_images w (length reader_pages) !! Z.of_nat i = Some img).
  { intros i img ([img' i'] & [= -> ->] & Hin)%list_elem_of_fmap.
    apply elem_of_new_futures in Hin as [Hin Himg]. split_and!; [|done..].
    apply pages_needing_ocr_lt in Hin. by rewrite length_fmap in Hin. }
  split_and!.
  - by rewrite <- list_fmap_compose.
  - rewrite length_fmap, <- (length_fmap snd).
    assert (Hbound : ∀ l n, StronglySorted lt l → Forall (λ i, i < n) l → length l ≤ n).
    { intros l. induction l as [|i l IH] using rev_ind; intros n Hs Hlt; [cbn; lia|].
      apply StronglySorted_app in Hs as (Hlast & Hs & _).
      apply Forall_app in Hlt as [Hlt Hi]. apply Forall_inv in Hi.
      rewrite length_app. cbn. destruct n as [|n]; [lia|].
      assert (length l ≤ n); [|lia]. apply IH; [done|].
      apply Forall_forall. intros j Hj.
      assert (j < i) by (apply Hlast; [done | left]). lia. }
    apply Hbound; [done|]. apply Forall_forall.
    intros i ([img i'] & -> & Hin)%list_elem_of_fmap. cbn.
    apply elem_of_new_futures in Hin as [Hin _].
    apply pages_needing_ocr_lt in Hin. by rewrite length_fmap in Hin.
  - intros i img Hin. destruct (Hmem i img Hin) as (_ & Hneed & Himg). split.
    + apply elem_of_pages_needing_ocr in Hneed as (t & Ht & Hn).
      rewrite list_lookup_fmap in Ht.
      destruct (reader_pages !! i) as [p|]; [|done]. injection Ht as <-.
      exists p. split; [done | by apply needs_ocr_short].
    + apply page_images_lookup in Himg as (_ & f & Hf & Hnum & ->). by exists f.
Qed.

Lemma tasks_ascending_witness :
  ∃ r log,
    run (extract_pdf broken_page reverse) = (Return r, log)
    ∧ StronglySorted lt (submitted log).*1
    ∧ length (submitted log) ≤ length broken_pages
    ∧ ∀ i img, (i, img) ∈ submitted log →
        (∃ p, broken_pages !! i = Some p ∧ length (strip (direct_text p)) < 20)
        ∧ ∃ f, f ∈ pdftoppm_files broken_page ∧ page_file_number f = (Z.of_nat i + 1)%Z
               ∧ img = Path (output_dir broken_page) (page_file_name f).
Proof.
  apply (tasks_ascending broken_page broken_pages reverse).
  - split; reflexivity.
  - intros futures. apply reverse_Permutation.
Defined.

(** X7.  The calls of an accepted request come in this order: the upload is
    saved, the container opened, [extract_text] called once on every page in
    page order (a page that raises does not stop the loop), pdftoppm run
    exactly once, and only then the OCR tasks submitted. *)
Theorem calls_in_order (w : World) (reader_pages : list extract_text_outcome)
    (as_completed : list (Future * nat) → list (Future * nat)) :
  accepted w reader_pages → completion_order as_completed →
  ∃ r log,
    run (extract_pdf w as_completed) = (Return r, log)
    ∧ log = [EvSaveUpload; EvOpenPdf]
            ++ (EvExtractText <$> seq 0 (length reader_pages))
            ++ [EvRasterize]
            ++ ((λ task, EvSubmitOcr task.1 task.2) <$> submitted log).
Proof.
  intros Hacc Horder.
  exists (expected_response w reader_pages), (expected_log w reader_pages).
  split; [by apply extract_pdf_run|].
  rewrite submitted_expected_log. unfold expected_log. do 3 f_equal.
  rewrite <- list_fmap_compose. apply list_fmap_ext. by intros _ [img i] _.
Qed.

Lemma calls_in_order_witness :
  ∃ r log,
    run (extract_pdf broken_page reverse) = (Return r, log)
    ∧ log = [EvSaveUpload; EvOpenPdf]
            ++ (EvExtractText <$> seq 0 (length broken_pages))
            ++ [EvRasterize]
            ++ ((λ task, EvSubmitOcr task.1 task.2) <$> submitted log).
Proof.
  apply (calls_in_order broken_page broken_pages reverse).
  - split; reflexivity.
  - intros futures. apply reverse_Permutation.
Defined.

(** ** The images the rasterizer adapter returns *)

Lemma insert_by_key_perm (x : Z * pystr) (l : list (Z * pystr)) :
  insert_by_key x l ≡ₚ x :: l.
Proof.
  induction l as [|y l IH]; [done|]. cbn [insert_by_key].
  destruct (x.1 <=? y.1)%Z; [done|]. rewrite IH. apply Permutation_swap.
Qed.

Lemma insert_by_key_sorted (x : Z * pystr) (l : list (Z * pystr)) :
  StronglySorted (λ a b, a.1 ≤ b.1)%Z l →
  StronglySorted (λ a b, a.1 ≤ b.1)%Z (insert_by_key x l).
Proof.
  induction 1 as [|y l Hs IH Hall]; [repeat constructor|].
  cbn [insert_by_key]. destruct (Z.leb_spec x.1 y.1) as [Hle|Hgt].
  - constructor; [by constructor|]. constructor; [done|].
    eapply Forall_impl; [exact Hall|]. intros z Hz. cbn in Hz |- *. lia.
  - constructor; [done|]. rewrite insert_by_key_perm. constructor; [lia | done].
Qed.

Lemma sort_by_key_sorted (keyed : list (Z * pystr)) :
  StronglySorted (λ a b, a.1 ≤ b.1)%Z (foldr insert_by_key [] keyed).
Proof.
  induction keyed as [|x keyed IH]; [constructor|]. by apply insert_by_key_sorted.
Qed.

(** X8.  [convert_pdf_to_images] never raises and runs pdftoppm once.  When
    the run succeeds it returns one path in the output directory for every
    file pdftoppm wrote, in ascending order of the page numbers in the file
    names (zero padding does not matter); when the run does not succeed it
    returns the empty list. *)
Theorem images_in_page_order (w : World) :
  ∃ fs,
    run (convert_pdf_to_images w)
    = (Return ((λ f, Path (output_dir w) (page_file_name f)) <$> fs), [EvRasterize])
    ∧ StronglySorted Z.le (page_file_number <$> fs)
    ∧ match subprocess_run true (pdftoppm w) with
      | Return _ => fs ≡ₚ pdftoppm_files w
      | Raise _ => fs = []
      end.
Proof.
  unfold run, convert_pdf_to_images.
  unfold mbind, M_bind, call, lift, mret, M_ret. cbn [app].
  destruct (subprocess_run true (pdftoppm w)) as [c|e].
  - rewrite filter_glob_page_files. unfold sorted_by_key.
    rewrite with_keys_page_files. cbn [mbind result_bind].
    pose proof (sort_by_key_sorted (keyed_file <$> pdftoppm_files w)) as Hsorted.
    destruct (sort_files (pdftoppm_files w)) as (fs & Hp & Heq).
    rewrite Heq in Hsorted |- *. exists fs. split_and!.
    + by rewrite <- !list_fmap_compose.
    + clear Heq Hp. induction fs as [|f fs IH]; [constructor|].
      cbn [fmap list_fmap] in Hsorted |- *.
      apply StronglySorted_inv in Hsorted as [Hs Hall].
      constructor; [by apply IH|].
      rewrite Forall_fmap in Hall. rewrite Forall_fmap.
      eapply Forall_impl; [exact Hall|]. by intros g Hg.
    + done.
  - exists []. split_and!; [done | constructor | done].
Qed.

(** X9.  The file names of pdftoppm round-trip through the parsing of lines
    75 and 141: a name [page-<digits>.jpg] matches the pattern of the glob,
    its stem is [page-<digits>], and its key is the number the digits spell
    in base ten, leading zeros included or not. *)
Theorem page_file_name_round_trip (d : nat) (ds : list nat) :
  glob_page_jpg (page_file_name (d, ds)) = true
  ∧ stem (page_file_name (d, ds)) = py "page-" ++ (digit_char <$> d :: ds)
  ∧ page_key (page_file_name (d, ds)) = Return (page_file_number (d, ds))
  ∧ page_key (page_file_name (0, d :: ds)) = page_key (page_file_name (d, ds))
  ∧ (0 ≤ page_file_number (d, ds))%Z.
Proof.
  split_and!.
  - apply glob_page_file_name.
  - apply (stem_page_file_name (d, ds)).
  - apply page_key_page_file_name.
  - rewrite !page_key_page_file_name. reflexivity.
  - unfold page_file_number. cbn [fst snd].
    assert (Hfold : ∀ l acc, (0 ≤ acc)%Z →
              (0 ≤ foldl (λ acc d, acc * 10 + Z.of_nat (d mod 10)) acc l)%Z).
    { induction l as [|x l IH]; intros acc Hacc; [done|]. cbn [foldl]. apply IH. lia. }
    by apply Hfold.
Qed.

(** X10.  The dictionary [page_to_image] the route builds from the images
    of the adapter has an entry for page index [k] exactly when pdftoppm
    succeeded, [k] is an index of the document and pdftoppm wrote a file
    numbered [k + 1]; the entry then is such a file in the output directory.
    Building the dictionary never raises. *)
Theorem page_to_image_entries (w : World) (num_pages : nat) :
  ∃ image_paths page_to_image,
    run (convert_pdf_to_images w) = (Return image_paths, [EvRasterize])
    ∧ match_images num_pages image_paths ∅ = Return page_to_image
    ∧ ∀ k : Z,
        (is_Some (page_to_image !! k)
         ↔ (∃ c, subprocess_run true (pdftoppm w) = Return c)
           ∧ (0 ≤ k < Z.of_nat num_pages)%Z
           ∧ ∃ f, f ∈ pdftoppm_files w ∧ page_file_number f = (k + 1)%Z)
        ∧ ∀ img, page_to_image !! k = Some img →
            ∃ f, f ∈ pdftoppm_files w ∧ page_file_number f = (k + 1)%Z
                 ∧ img = Path (output_dir w) (page_file_name f).
Proof.
  exists (rasterized w), (page_images w num_pages). split_and!.
  - unfold run. by rewrite convert_pdf_to_images_run.
  - apply match_images_run.
  - intros k. split; [split|].
    + intros [img Himg].
      destruct (page_images_lookup _ _ _ _ Himg) as (Hk & f & Hf & Hnum & _).
      split; [|split; [done | by exists f]].
      destruct (subprocess_run true (pdftoppm w)) as [c|e] eqn:Hrun; [by exists c|].
      rewrite (page_images_failed w num_pages (rasterized_failed w e Hrun)) in Himg.
      by rewrite lookup_empty in Himg.
    + intros ([c Hrun] & Hk & f & Hf & Hnum).
      replace k with (page_file_number f - 1)%Z by lia.
      apply (page_images_has w num_pages c f Hrun Hf). lia.
    + intros img Himg.
      destruct (page_images_lookup _ _ _ _ Himg) as (_ & f & Hf & Hnum & ->). by exists f.
Qed.

(** ** The response *)

Lemma texts_of_entries (k : nat) (texts : list pystr) :
  text <$> (entry_of <$> enumerate_from k texts) = texts.
Proof.
  revert k. induction texts as [|t texts IH]; intros k; [done|].
  cbn [enumerate_from fmap list_fmap entry_of text snd]. f_equal. apply IH.
Qed.

Lemma str_join_length (sep : pystr) (parts : list pystr) :
  length (str_join sep parts)
  = sum_list (length <$> parts) + length sep * (length parts - 1).
Proof.
  induction parts as [|p [|q parts] IH].
  - cbn. lia.
  - cbn. lia.
  - change (str_join sep (p :: q :: parts)) with (p ++ sep ++ str_join sep (q :: parts)).
    rewrite !length_app, IH. cbn [fmap list_fmap sum_list sum_list_with length].
    replace (S (S (length parts)) - 1) with (S (length parts)) by lia.
    replace (S (length parts) - 1) with (length parts) by lia.
    rewrite Nat.mul_succ_r. unfold id. lia.
Qed.

(** X11.  [full_text] is the texts of the reported pages, in page order,
    joined by two newlines: its length is the sum of their lengths plus two
    for every page but the last.  The two views of the response never
    disagree. *)
Theorem full_text_joins_pages (w : World) (reader_pages : list extract_text_outcome)
    (as_completed : list (Future * nat) → list (Future * nat)) :
  accepted w reader_pages → completion_order as_completed →
  ∃ r log,
    run (extract_pdf w as_completed) = (Return r, log)
    ∧ full_text r = str_join [NEWLINE; NEWLINE] (text <$> pages r)
    ∧ length (full_text r)
      = sum_list (length <$> (text <$> pages r)) + 2 * (length reader_pages - 1).
Proof.
  intros Hacc Horder.
  exists (expected_response w reader_pages), (expected_log w reader_pages).
  assert (Htexts : text <$> pages (expected_response w reader_pages)
                   = final_texts w reader_pages) by apply texts_of_entries.
  split_and!.
  - by apply extract_pdf_run.
  - by rewrite Htexts.
  - rewrite Htexts. cbn [full_text expected_response].
    by rewrite str_join_length, final_texts_length.
Qed.

Lemma full_text_joins_pages_witness :
  ∃ r log,
    run (extract_pdf mixed reverse) = (Return r, log)
    ∧ full_text r = str_join [NEWLINE; NEWLINE] (text <$> pages r)
    ∧ length (full_text r)
      = sum_list (length <$> (text <$> pages r)) + 2 * (length mixed_pages - 1).
Proof.
  apply (full_text_joins_pages mixed mixed_pages reverse).
  - split; reflexivity.
  - intros futures. apply reverse_Permutation.
Defined.

(** X12.  A document without pages is accepted: the response has status
    [success], page count 0, [ocr_used] false, no page entry and an empty
    [full_text]; pdftoppm is still run on it, and the pool is not asked for
    anything. *)
Theorem empty_document (w : World)
    (as_completed : list (Future * nat) → list (Future * nat)) :
  accepted w [] →
  run (extract_pdf w as_completed)
  = (Return {| status := py "success"; page_count := 0; ocr_used := false;
               pages := []; full_text := [] |},
     [EvSaveUpload; EvOpenPdf; EvRasterize]).
Proof.
  intros Hacc. by rewrite (extract_pdf_run_weak w [] as_completed Hacc).
Qed.

Lemma empty_document_witness :
  run (extract_pdf (with_pages text_only []) id)
  = (Return {| status := py "success"; page_count := 0; ocr_used := false;
               pages := []; full_text := [] |},
     [EvSaveUpload; EvOpenPdf; EvRasterize]).
Proof. apply (empty_document (with_pages text_only []) id). split; reflexivity. Defined.

(** ** The texts the adapters hand over *)

Lemma lstrip_head (s : pystr) (c : char) : head (lstrip s) = Some c → is_space c = false.
Proof.
  induction s as [|d s IH]; cbn; [done|].
  destruct (is_space d) eqn:Hd; [exact IH|]. cbn. by intros [= <-].
Qed.

Lemma strip_head (s : pystr) (c : char) : head (strip s) = Some c → is_space c = false.
Proof.
  unfold strip. destruct (lstrip s) as [|d t] eqn:Hl; [done|].
  assert (Hd : is_space d = false) by (apply (lstrip_head s); by rewrite Hl).
  rewrite rstrip_cons_nonspace by done. cbn. by intros [= <-].
Qed.

Lemma strip_last (s : pystr) (c : char) : last (strip s) = Some c → is_space c = false.
Proof.
  unfold strip, rstrip. intros Hlast.
  apply (lstrip_head (rev (lstrip s))).
  destruct (lstrip (rev (lstrip s))) as [|d t]; [done|].
  cbn [rev] in Hlast. rewrite last_snoc in Hlast. done.
Qed.

(** X13.  [ocr_image] never returns the empty string.  When the tesseract
    process ran to its end the result is trimmed (no whitespace at either
    end) and depends on the output alone: the exit status of tesseract is
    not looked at. *)
Theorem ocr_image_never_blank (w : World) (image_path : path) (timeout_sec : Z) :
  ∃ o,
    ocr_image w image_path timeout_sec = Return o
    ∧ o ≠ []
    ∧ ∀ rc out, tesseract w image_path timeout_sec = RunExits rc out →
        strip o = o
        ∧ (∀ c, head o = Some c ∨ last o = Some c → is_space c = false)
        ∧ ∀ w' rc', tesseract w' image_path timeout_sec = RunExits rc' out →
            ocr_image w' image_path timeout_sec = Return o.
Proof.
  unfold ocr_image.
  destruct (tesseract w image_path timeout_sec) as [|cause|rc out] eqn:Hrun;
    cbn [subprocess_run andb mbind result_bind try_except stdout].
  - eexists. split_and!; [done | done | done].
  - eexists. split_and!; [done | | done].
    apply literal_app_nonempty. vm_compute. lia.
  - destruct (strip out) as [|c s] eqn:Hout; cbn [truthy].
    + eexists. split_and!; [done | done |].
      intros rc0 out0 [= <- <-]. split_and!.
      * reflexivity.
      * intros c [Hc|Hc]; injection Hc as <-; reflexivity.
      * intros w' rc' Hrun'. rewrite Hrun'.
        cbn [subprocess_run andb mbind result_bind try_except stdout]. by rewrite Hout.
    + eexists. split_and!; [done | done |].
      intros rc0 out0 [= <- <-]. split_and!.
      * rewrite <- Hout. apply strip_idemp.
      * rewrite <- Hout. intros d [Hd|Hd]; [by eapply strip_head | by eapply strip_last].
      * intros w' rc' Hrun'. rewrite Hrun'.
        cbn [subprocess_run andb mbind result_bind try_except stdout]. by rewrite Hout.
Qed.


(** ** One page's OCR does not touch another page *)

Lemma rasterized_same_tool (w1 w2 : World) :
  output_dir w1 = output_dir w2 → pdftoppm w1 = pdftoppm w2 →
  pdftoppm_files w1 = pdftoppm_files w2 →
  rasterized w1 = rasterized w2.
Proof.
  intros Hdir Hrun Hfiles. unfold rasterized, run, convert_pdf_to_images.
  by rewrite Hdir, Hrun, Hfiles.
Qed.

(** X15.  Take two requests for the same document that see the same
    pdftoppm run, with tesseract and the pool behaving in any two ways.
    Both make the same calls and submit the same OCR tasks, and every page
    on whose own image tesseract and the pool behave alike is reported with
    the same entry: what happens to the OCR of one page never changes the
    text of another. *)
Theorem pages_isolated (w1 w2 : World) (reader_pages : list extract_text_outcome)
    (order1 order2 : list (Future * nat) → list (Future * nat)) :
  accepted w1 reader_pages → accepted w2 reader_pages →
  completion_order order1 → completion_order order2 →
  output_dir w1 = output_dir w2 → pdftoppm w1 = pdftoppm w2 →
  pdftoppm_files w1 = pdftoppm_files w2 →
  ∃ r1 r2 log,
    run (extract_pdf w1 order1) = (Return r1, log)
    ∧ run (extract_pdf w2 order2) = (Return r2, log)
    ∧ ocr_used r1 = ocr_used r2
    ∧ ∀ i,
        (∀ f, f ∈ pdftoppm_files w1 → page_file_number f = (Z.of_nat i + 1)%Z →
              tesseract w1 (Path (output_dir w1) (page_file_name f)) 8
              = tesseract w2 (Path (output_dir w1) (page_file_name f)) 8
              ∧ pool_fault w1 (Path (output_dir w1) (page_file_name f))
                = pool_fault w2 (Path (output_dir w1) (page_file_name f))) →
        pages r1 !! i = pages r2 !! i.
Proof.
  intros Hacc1 Hacc2 Ho1 Ho2 Hdir Hrun Hfiles.
  assert (Hmap : page_images w1 (length reader_pages) = page_images w2 (length reader_pages)).
  { unfold page_images. by rewrite (rasterized_same_tool w1 w2). }
  exists (expected_response w1 reader_pages), (expected_response w2 reader_pages),
    (expected_log w1 reader_pages).
  split_and!.
  - by apply extract_pdf_run.
  - rewrite (extract_pdf_run w2 reader_pages) by done.
    unfold expected_log, scheduled. by rewrite Hmap.
  - done.
  - intros i Hsame. rewrite !expected_pages_lookup.
    destruct (reader_pages !! i) as [p|]; [|done]. cbn [fmap option_fmap option_map].
    do 2 f_equal. unfold final_text. rewrite <- Hmap.
    destruct (needs_ocr (direct_text p)); [|done].
    destruct (page_images w1 (length reader_pages) !! Z.of_nat i) as [img|] eqn:Himg; [|done].
    apply page_images_lookup in Himg as (_ & f & Hf & Hnum & ->).
    destruct (Hsame f Hf Hnum) as [Htess Hpool].
    unfold task_text, future_result, ocr_image. by rewrite Htess, Hpool.
Qed.

Lemma pages_isolated_witness :
  ∃ r1 r2 log,
    run (extract_pdf mixed id) = (Return r1, log)
    ∧ run (extract_pdf mixed_slow reverse) = (Return r2, log)
    ∧ ocr_used r1 = ocr_used r2
    ∧ pages r1 !! 0 = pages r2 !! 0.
Proof.
  assert (Hacc1 : accepted mixed mixed_pages) by (split; reflexivity).
  assert (Hacc2 : accepted mixed_slow mixed_pages) by (split; reflexivity).
  assert (Ho1 : completion_order id) by (intros futures; reflexivity).
  assert (Ho2 : completion_order reverse) by (intros futures; apply reverse_Permutation).
  destruct (pages_isolated mixed mixed_slow mixed_pages id reverse
              Hacc1 Hacc2 Ho1 Ho2 eq_refl eq_refl eq_refl)
    as (r1 & r2 & log & Hrun1 & Hrun2 & Hused & Hpages).
  exists r1, r2, log. split_and!; [exact Hrun1 | exact Hrun2 | exact Hused |].
  apply Hpages. intros f Hf Hnum.
  apply list_elem_of_In in Hf. cbn in Hf.
  destruct Hf as [<-|[<-|[<-|[]]]]; try discriminate Hnum.
  split; reflexivity.
Defined.
